(** * Batch CSV ingestor ([ingestion_db.py], function [load_data_fast])

    A shallow embedding of the ingestion script: the pure helpers it relies on
    (file-name handling, chunking), the state it acts on (database tables, the
    per-file raw connection, the log and progress output) and the control flow
    of [load_data_fast], with Python's [try]/[except]/[finally], [with] and
    [continue] written as combinators of a small state-and-exception monad.

    The environment of the script is explicit:
    - the directory is the list of its entries, each a name and the text lines
      of the file; pandas takes the first line that is not blank for the
      header and every later line that is not blank for one record (fields are
      taken not to hold line breaks);
    - the database is a finite map from table names to rows; rows sent through
      the raw connection stay in its open transaction until [commit()];
    - pandas, SQLAlchemy, psycopg2 and tqdm are given by what their calls do
      here: [pd.read_csv] with a chunk size, [DataFrame.to_sql] with
      [if_exists='append'], the DB-API transaction of a raw connection;
    - a plan of the environment says, call by call, which library calls
      raise, and which relation the server takes the table name of the [COPY]
      statement for when the name is not a plain identifier. [close()] on the
      pooled raw connection, [tqdm] and the printing and logging calls are
      taken not to raise. *)

From Stdlib Require Import ZArith String Ascii List Lia Bool.
From stdpp Require Import base option list gmap strings.

Open Scope Z_scope.

(** ** Strings: [str.lower], [str.endswith], [os.path.splitext] *)

Module Str.

Definition chars (s : string) : list ascii := list_ascii_of_string s.
Definition of_chars (l : list ascii) : string := string_of_list_ascii l.

(** [c.lower()] on one ASCII character: [A]..[Z] move to [a]..[z], every
    other code stays. *)
Definition lower_char (c : ascii) : ascii :=
  let n := nat_of_ascii c in
  if ((65 <=? n)%nat && (n <=? 90)%nat)%bool then ascii_of_nat (n + 32) else c.

(** The characters Python lower-cases one by one, independently of the
    characters around them: those of ASCII. *)
Definition is_ascii_char (c : ascii) : bool := (nat_of_ascii c <? 128)%nat.

Definition is_ascii (s : string) : bool := forallb is_ascii_char (chars s).


(** [s.lower()] on an ASCII string. On other strings [str.lower] follows the
    Unicode tables, which are not modelled: a statement that depends on what
    the lowered name is carries [is_ascii] (or [plain_identifier], below) as
    a hypothesis; elsewhere the result only stands for the name the script
    passes on. *)
Definition lower (s : string) : string := of_chars (map lower_char (chars s)).

(** [s.endswith(suffix)] *)
Definition endswith (s suffix : string) : bool :=
  let l := chars s in
  let x := chars suffix in
  bool_decide (drop (length l - length x)%nat l = x).

(** [p.rfind(c)] for a one-character needle: the highest index holding [c],
    [-1] when there is none. *)
Fixpoint rfind_from (c : ascii) (p : list ascii) (i found : Z) : Z :=
  match p with
  | [] => found
  | x :: q => rfind_from c q (i + 1) (if Ascii.eqb x c then i else found)
  end.

Definition rfind (c : ascii) (p : list ascii) : Z := rfind_from c p 0 (-1).

(** The loop of [genericpath._splitext] that skips leading dots:
<<
    while filenameIndex < dotIndex:
        if p[filenameIndex:filenameIndex+1] != extsep:
            return p[:dotIndex], p[dotIndex:]
        filenameIndex += 1
    return p, p[:0]
>>
    [n] counts the iterations left, [dotIndex - filenameIndex]. *)
Fixpoint skip_leading_dots (n : nat) (extsep : ascii) (p : list ascii)
    (dotIndex filenameIndex : nat) : list ascii * list ascii :=
  match n with
  | O => (p, [])
  | S n' =>
      if bool_decide (take 1 (drop filenameIndex p) = [extsep])
      then skip_leading_dots n' extsep p dotIndex (S filenameIndex)
      else (take dotIndex p, drop dotIndex p)
  end.

(** [genericpath._splitext(p, sep, altsep, extsep)] *)
Definition _splitext (sep : ascii) (altsep : option ascii) (extsep : ascii)
    (p : list ascii) : list ascii * list ascii :=
  let sepIndex := rfind sep p in
  let sepIndex :=
    match altsep with
    | Some a => Z.max sepIndex (rfind a p)
    | None => sepIndex
    end in
  let dotIndex := rfind extsep p in
  if sepIndex <? dotIndex then
    let filenameIndex := sepIndex + 1 in
    skip_leading_dots (Z.to_nat (dotIndex - filenameIndex)) extsep p
      (Z.to_nat dotIndex) (Z.to_nat filenameIndex)
  else (p, []).

(** [os.path.splitext] as [ntpath] and [posixpath] define it. The script is
    written for a Windows data directory; the two agree on every name that
    holds no backslash, in particular on those [os.listdir] returns there. *)
Definition ntpath_splitext (p : string) : string * string :=
  let '(root, ext) := _splitext "\" (Some "/"%char) "." (chars p) in
  (of_chars root, of_chars ext).

Definition posixpath_splitext (p : string) : string * string :=
  let '(root, ext) := _splitext "/" None "." (chars p) in
  (of_chars root, of_chars ext).

(** The stem of a file name, as the documentation of [os.path.splitext] words
    it: the name without its extension, where the extension starts at the last
    period and leading periods belong to the root. Declarative counterpart of
    [_splitext] for names without a directory separator. *)
Definition is_dot (c : ascii) : bool := Ascii.eqb c ".".

(** [p] without its part from the last period on; [None] when [p] holds no
    period. *)
Fixpoint cut_last_dot (p : list ascii) : option (list ascii) :=
  match p with
  | [] => None
  | c :: q =>
      match cut_last_dot q with
      | Some r => Some (c :: r)
      | None => if is_dot c then Some [] else None
      end
  end.

Fixpoint stem_chars (p : list ascii) : list ascii :=
  match p with
  | [] => []
  | c :: q => if is_dot c then c :: stem_chars q else default p (cut_last_dot p)
  end.

Definition stem (name : string) : string := of_chars (stem_chars (chars name)).

End Str.

(** ** Data model *)

(** A data record is identified by the text line it was parsed from: the
    values pandas parses out of the line, and their text when they are
    written again, are not modelled. A frame ([DataFrame]) is kept as the
    header line it was parsed under and its records in file order; [columns]
    is that line, not the column labels pandas derives from it (which differ
    from its fields where a name is repeated). *)
Definition row : Type := string.

Record chunk : Type := Chunk { columns : string; rows : list row }.

(** [len(chunk)] *)
Definition len (c : chunk) : Z := Z.of_nat (length (rows c)).

(** A directory entry: its name and the text lines of the file. *)
Record csv_file : Type := CsvFile { fname : string; flines : list string }.

(** ** Exceptions and faults *)

Inductive exn : Type :=
| StopIteration
| EmptyDataError          (* pandas.errors.EmptyDataError *)
| ValueError              (* read_csv: chunksize below 1 *)
| AttributeError          (* a method called on None *)
| Fault (msg : string).   (* any other Exception of a library call *)

(** What the environment does to the library calls made for one file: [None]
    lets the call return, [Some msg] makes it raise an [Exception] (a decoding
    error, a parser error on a malformed row, a driver or connection error, a
    syntax error of the server). The pulls from the reader and the bulk copies
    are numbered by the frame they concern, the first frame of the file being
    number 0. [copy_target] is the server's reading of the table name in the
    [COPY] statement where that name is not a plain identifier (see
    [copy_relation]): [None] for the table of that name itself. *)
Record faults : Type := Environment {
  open_fault : option string;            (* line 53, reading the file *)
  read_csv_fault : option string;        (* line 56, pd.read_csv building its parser *)
  next_fault : nat → option string;      (* next(reader) / for chunk in reader *)
  to_sql_fault : option string;          (* first_chunk.to_sql(...) *)
  raw_connection_fault : option string;  (* engine.raw_connection() *)
  cursor_fault : option string;          (* raw_conn.cursor() *)
  copy_fault : nat → option string;      (* cursor.copy_expert(sql, buffer) *)
  copy_target : option string;           (* line 84, the unquoted table name *)
  commit_fault : option string;          (* raw_conn.commit() *)
  rollback_fault : option string         (* raw_conn.rollback() *)
}.

(** The plans under which [pd.read_csv] builds its parser and the server
    reads the table name of [COPY] as the table itself. *)
Definition Faults (open_fault : option string) (next_fault : nat → option string)
    (to_sql_fault raw_connection_fault cursor_fault : option string)
    (copy_fault : nat → option string)
    (commit_fault rollback_fault : option string) : faults :=
  Environment open_fault None next_fault to_sql_fault raw_connection_fault
    cursor_fault copy_fault None commit_fault rollback_fault.

Definition no_faults : faults :=
  Faults None (λ _, None) None None None (λ _, None) None None.

(** ** Observable output *)

(** The texts printed to standard output (elapsed time left out). *)
Inductive message : Type :=
| Checking                              (* line 36 *)
| FoundFiles (names : list string)      (* line 38 *)
| NoCsvFiles                            (* line 41 *)
| Starting (file : string)              (* line 45 *)
| PreCounting (file : string)           (* line 52 *)
| FoundRows (total_rows : Z)            (* line 54 *)
| InsertingFirst (file : string)        (* line 66 *)
| FirstInserted                         (* line 70 *)
| Switching                             (* line 73 *)
| ConnClosed (file : string)            (* line 102 *)
| AllProcessed.                         (* line 107 *)

Inductive event : Type :=
| Print (m : message)
| LogInfoIngested (file : string)                 (* line 90 *)
| LogWarningEmpty (file : string)                 (* line 93 *)
| LogErrorUploading (file : string) (e : exn)     (* line 96 *)
| LogInfoCompleted                                (* line 106 *)
| FileRead (file : string) (nlines : nat)         (* line 53: one full pass *)
| PbarOpen (file : string) (total : Z)            (* tqdm(total=..., desc=...) *)
| PbarUpdate (n : Z)
| PbarClose
| ToSql (table : string) (c : chunk)              (* generic insert path *)
| RawConnect
| Copy (table : string) (c : chunk)               (* bulk-copy path *)
| Commit
| Rollback
| Close.

#[global] Instance exn_eq_dec : EqDecision exn.
Proof. solve_decision. Defined.
#[global] Instance chunk_eq_dec : EqDecision chunk.
Proof. solve_decision. Defined.
#[global] Instance message_eq_dec : EqDecision message.
Proof. solve_decision. Defined.
#[global] Instance event_eq_dec : EqDecision event.
Proof. solve_decision. Defined.

(** ** State *)

(** A raw DB-API connection: the rows copied in its open transaction, not yet
    visible to others, and whether [close()] was called on it. *)
Record connection : Type := Connection {
  pending : list (string * list row);
  closed : bool
}.

(** The database (committed tables, by name), the loop body's local variable
    [raw_conn], and everything printed, logged or sent so far, oldest first. *)
Record state : Type := State {
  tables : gmap string (list row);
  raw_conn : option connection;
  out : list event
}.

Definition table_rows (db : gmap string (list row)) (name : string) : list row :=
  default [] (db !! name).

(** Appending to a table creates it when it is missing. *)
Definition append_rows (name : string) (new : list row)
    (db : gmap string (list row)) : gmap string (list row) :=
  <[name := table_rows db name ++ new]> db.

(** The copies of a transaction, applied in order at commit. *)
Definition apply_copies (copies : list (string * list row))
    (db : gmap string (list row)) : gmap string (list row) :=
  foldl (λ d '(name, new), append_rows name new d) db copies.

(** ** The monad: state passing with exceptions *)

Inductive result (A : Type) : Type :=
| Ret (a : A)
| Exc (e : exn).
Arguments Ret {A} a.
Arguments Exc {A} e.

Definition M (A : Type) : Type := state → result A * state.

Definition ret {A} (a : A) : M A := λ s, (Ret a, s).

Definition bind {A B} (m : M A) (k : A → M B) : M B :=
  λ s, match m s with
       | (Ret a, s1) => k a s1
       | (Exc e, s1) => (Exc e, s1)
       end.

Definition raise {A} (e : exn) : M A := λ s, (Exc e, s).

Notation "x <- m ;; k" := (bind m (λ x, k))
  (at level 20, m at level 99, k at level 200, format "x  <-  m ;;  '/' k").
Notation "m ;; k" := (bind m (λ _, k))
  (at level 100, k at level 200, right associativity, format "m ;;  '/' k").

Definition emit (e : event) : M unit :=
  λ s, (Ret tt, State (tables s) (raw_conn s) (out s ++ [e])).

Definition print (m : message) : M unit := emit (Print m).

(** A library call under the fault plan. *)
Definition call (fault : option string) : M unit :=
  match fault with
  | Some msg => raise (Fault msg)
  | None => ret tt
  end.

(** [try: body / except ...: handler / finally: fin]: the handler runs on an
    exception of the body, and [fin] runs last on every path; an exception of
    [fin] replaces the outcome, one of the handler propagates after [fin]. *)
Definition try_except_finally {A} (body : M A) (handler : exn → M A)
    (fin : M unit) : M A :=
  λ s,
    let '(r, s1) :=
      match body s with
      | (Ret a, s1) => (Ret a, s1)
      | (Exc e, s1) => handler e s1
      end in
    match fin s1 with
    | (Ret _, s2) => (r, s2)
    | (Exc e, s2) => (Exc e, s2)
    end.

(** [with cm: body] for a context manager whose [__exit__] does not swallow
    exceptions: [release] runs on every path. *)
Definition with_ {A} (acquire : M unit) (release : M unit) (body : M A) : M A :=
  acquire;; try_except_finally body raise release.

(** ** The libraries the script calls *)

(** Successive slices of at most [c] records; [fuel] bounds their number. *)
Fixpoint chunked (fuel c : nat) (l : list row) : list (list row) :=
  match fuel, l with
  | S fuel', _ :: _ => take c l :: chunked fuel' c (drop c l)
  | _, _ => []
  end.

Definition chunks (c : nat) (l : list row) : list (list row) :=
  chunked (length l) c l.

(** A line the parser skips under [skip_blank_lines=True], the default: one
    of spaces and tabs only (the tokenizer's [WHITESPACE_LINE]). *)
Definition is_blank (line : string) : bool :=
  forallb (λ c, Ascii.eqb c " "%char || Ascii.eqb c "009"%char) (Str.chars line).

(** The files whose records are their lines: no line holds a double quote,
    so that no quoted field runs over a line break. *)
Definition plain_lines (lines : list string) : bool :=
  forallb (λ line, forallb (λ c, negb (Ascii.eqb c "034"%char)) (Str.chars line)) lines.

(** The lines the parser takes in: the first is the header, each later one a
    record. *)
Definition data_lines (lines : list string) : list string :=
  List.filter (λ line, negb (is_blank line)) lines.
Arguments data_lines : simpl never.

(** The frames a chunked reader yields for a file whose first line is
    [header] and whose later lines are [recs]: slices of at most the chunk
    size of the records, under the header the parser found; none when every
    line is blank ([pd.read_csv] has raised then). pandas' parsers answer the
    first read of a file that has a header and no record with the empty frame
    of that header ([CParserWrapper.read] and [PythonParser.read] return the
    empty frame while [_first_chunk] is set; pandas tests this as
    [test_empty_with_nrows_chunksize], GH 9535); only a later read at the end
    of the data raises [StopIteration]. *)
Definition frames_of (c : nat) (header : string) (recs : list row) : list chunk :=
  match data_lines (header :: recs) with
  | [] => []
  | h :: rs =>
      match chunks c rs with
      | [] => [Chunk h []]
      | slices => map (Chunk h) slices
      end
  end.

(** The iterator [pd.read_csv(..., chunksize=..., iterator=True)] returns: the
    frames still to come and the number of reads made. *)
Record reader : Type := Reader { frames : list chunk; pulled : nat }.

(** [pd.read_csv(file_path, chunksize=chunksize, iterator=True)]: the chunk
    size is validated to be at least 1 before the file is touched; then the
    parser is built at once: it opens the file and reads the header, which
    may raise as the environment has it, and raises [EmptyDataError] ("No
    columns to parse from file") on a file without a line that is not
    blank. *)
Definition pd_read_csv (fl : faults) (f : csv_file) (chunksize : Z) : M reader :=
  if chunksize <? 1 then raise ValueError
  else
    call (read_csv_fault fl);;
    match flines f with
    | [] => raise EmptyDataError
    | header :: recs =>
        match data_lines (header :: recs) with
        | [] => raise EmptyDataError
        | _ => ret (Reader (frames_of (Z.to_nat chunksize) header recs) 0)
        end
    end.

(** [next(reader)] *)
Definition next (fl : faults) (r : reader) : M (chunk * reader) :=
  call (next_fault fl (pulled r));;
  match frames r with
  | [] => raise StopIteration
  | c :: rest => ret (c, Reader rest (S (pulled r)))
  end.

(** [for chunk in reader: body]: reads until [StopIteration]; [body] is given
    the number of the frame with it. *)
Fixpoint for_frames (fl : faults) (rest : list chunk) (k : nat)
    (body : nat → chunk → M unit) : M unit :=
  call (next_fault fl k);;
  match rest with
  | [] => ret tt
  | c :: rest' => body k c;; for_frames fl rest' (S k) body
  end.

Definition for_chunk_in (fl : faults) (r : reader)
    (body : nat → chunk → M unit) : M unit :=
  for_frames fl (frames r) (pulled r) body.

(** [sum(1 for row in open(file_path, 'r', encoding='utf-8'))] *)
Definition count_lines (fl : faults) (f : csv_file) : M Z :=
  call (open_fault fl);;
  emit (FileRead (fname f) (length (flines f)));;
  ret (Z.of_nat (length (flines f))).

(** [with tqdm(total=total_rows, desc=..., unit="rows") as pbar: body] *)
Definition with_tqdm {A} (total : Z) (file : string) (body : M A) : M A :=
  with_ (emit (PbarOpen file total)) (emit PbarClose) body.

(** [pbar.update(n)] *)
Definition pbar_update (n : Z) : M unit := emit (PbarUpdate n).

(** [chunk.to_sql(name, engine, index=False, if_exists='append',
    method='multi')]: runs in a transaction of its own on the engine, creates
    the table when it is missing (also for a frame without rows: the table is
    created before the insert, which then has nothing to do), appends the
    rows, and commits; nothing is changed when it raises. *)
Definition to_sql (fl : faults) (c : chunk) (name : string) : M unit :=
  call (to_sql_fault fl);;
  λ s, (Ret tt, State (append_rows name (rows c) (tables s)) (raw_conn s)
                      (out s ++ [ToSql name c])).

(** [raw_conn = None] *)
Definition reset_raw_conn : M unit :=
  λ s, (Ret tt, State (tables s) None (out s)).

(** [raw_conn = engine.raw_connection()] *)
Definition raw_connection (fl : faults) : M unit :=
  call (raw_connection_fault fl);;
  λ s, (Ret tt, State (tables s) (Some (Connection [] false))
                      (out s ++ [RawConnect])).

(** A method of [raw_conn]: on [None] the attribute lookup fails; otherwise
    the call may raise, or acts on the connection and the database. *)
Definition on_raw_conn (fault : option string) (evs : list event)
    (f : connection → gmap string (list row) →
         connection * gmap string (list row)) : M unit :=
  λ s, match raw_conn s with
       | None => (Exc AttributeError, s)
       | Some c =>
           match fault with
           | Some msg => (Exc (Fault msg), s)
           | None =>
               let '(c', db) := f c (tables s) in
               (Ret tt, State db (Some c') (out s ++ evs))
           end
       end.

(** [with raw_conn.cursor() as cursor: body] *)
Definition with_cursor {A} (fl : faults) (body : M A) : M A :=
  with_ (on_raw_conn (cursor_fault fl) [] (λ c db, (c, db))) (ret tt) body.

(** A name the server reads as the identifier it spells: lower-case letters,
    digits and underscores, not starting with a digit, of at most 63
    characters. *)
Definition ident_start (c : ascii) : bool :=
  let n := nat_of_ascii c in
  ((97 <=? n)%nat && (n <=? 122)%nat) || (n =? 95)%nat.

Definition ident_part (c : ascii) : bool :=
  let n := nat_of_ascii c in
  ident_start c || ((48 <=? n)%nat && (n <=? 57)%nat).

Definition plain_identifier (name : string) : bool :=
  match Str.chars name with
  | [] => false
  | c :: rest =>
      ident_start c && forallb ident_part rest && (length rest <? 63)%nat
  end.

(** The relation the statement of line 84 copies into. [to_sql] quotes the
    table name where SQL needs it, so its table is the one named [name]
    whatever the name holds; line 84 puts the name into the statement as it
    is (the column names, line 83, are quoted), so the server reads it as
    SQL. A plain identifier is the table of that name. Any other text is what
    the server makes of it: [public.sales] is table [sales] of schema
    [public]; a name with a hyphen, a space or a leading digit, or a reserved
    word, is a syntax error, raised by the call (a [copy_fault]). The relation
    named by the environment is taken to exist (the call raises otherwise). *)
Definition copy_relation (fl : faults) (name : string) : string :=
  if plain_identifier name then name else default name (copy_target fl).

(** [cursor.copy_expert("COPY name (cols) FROM STDIN WITH CSV", buffer)] for
    the serialized frame: its rows join the connection's open transaction,
    for the relation the server reads [name] as. *)
Definition copy_expert (fl : faults) (k : nat) (name : string) (c : chunk) : M unit :=
  on_raw_conn (copy_fault fl k) [Copy name c]
    (λ conn db,
       (Connection (pending conn ++ [(copy_relation fl name, rows c)]) (closed conn),
        db)).

(** [raw_conn.commit()]: the copied rows become visible. *)
Definition commit (fl : faults) : M unit :=
  on_raw_conn (commit_fault fl) [Commit]
    (λ conn db, (Connection [] (closed conn), apply_copies (pending conn) db)).

(** [raw_conn.rollback()]: the copied rows are dropped. *)
Definition rollback (fl : faults) : M unit :=
  on_raw_conn (rollback_fault fl) [Rollback]
    (λ conn db, (Connection [] (closed conn), db)).

(** [raw_conn.close()]: an open transaction is dropped with the connection. *)
Definition close : M unit :=
  on_raw_conn None [Close] (λ conn db, (Connection [] true, db)).

(** [if raw_conn: body] *)
Definition if_raw_conn (body : M unit) : M unit :=
  λ s, match raw_conn s with
       | Some _ => body s
       | None => (Ret tt, s)
       end.

(** ** The script *)

(** How the body of the [for file in csv_files] loop ends: by reaching its
    end, or by [continue]. *)
Inductive flow : Type := Next | Continue.

(** Line 47. [os.path] is [ntpath]: the data directory of the script (line
    111) is a Windows path. *)
Definition table_name_of (file : string) : string :=
  Str.lower (Str.ntpath_splitext file).1.

(** Lines 79-87: the body of the loop over the remaining chunks, for frame
    number [k]. *)
Definition copy_chunk (fl : faults) (table_name : string) (k : nat)
    (chunk : chunk) : M unit :=
  copy_expert fl k table_name chunk;;
  pbar_update (len chunk).

(** Lines 60-102, for [total_rows] as counted. *)
Definition upload (fl : faults) (file table_name : string) (total_rows : Z)
    (r : reader) : M flow :=
  with_tqdm total_rows file (
    reset_raw_conn;;
    try_except_finally
      (fr <- next fl r;;
       let '(first_chunk, r) := fr in
       print (InsertingFirst file);;
       to_sql fl first_chunk table_name;;
       pbar_update (len first_chunk);;
       print FirstInserted;;
       print Switching;;
       raw_connection fl;;
       with_cursor fl (for_chunk_in fl r (copy_chunk fl table_name));;
       commit fl;;
       emit (LogInfoIngested file);;
       ret Next)
      (λ e,
         match e with
         | StopIteration =>
             emit (LogWarningEmpty file);;
             ret Continue
         | _ =>
             emit (LogErrorUploading file e);;
             if_raw_conn (rollback fl);;
             ret Next
         end)
      (if_raw_conn (close;; print (ConnClosed file)))).

(** Lines 45-102: the body of the loop over the files. *)
Definition process_file (fl : faults) (chunksize : Z) (f : csv_file) : M flow :=
  let file := fname f in
  print (Starting file);;
  let table_name := table_name_of file in
  print (PreCounting file);;
  n <- count_lines fl f;;
  let total_rows := n - 1 in
  print (FoundRows total_rows);;
  r <- pd_read_csv fl f chunksize;;
  upload fl file table_name total_rows r.

(** [for file in csv_files: ...] *)
Fixpoint for_files (plan : string → faults) (chunksize : Z)
    (csv_files : list csv_file) : M unit :=
  match csv_files with
  | [] => ret tt
  | f :: rest =>
      process_file (plan (fname f)) chunksize f;;
      for_files plan chunksize rest
  end.

(** Line 37: [[f for f in os.listdir(data_path) if f.endswith('.csv')]] *)
Definition list_csv_files (data_path : list csv_file) : list csv_file :=
  filter (λ f, Str.endswith (fname f) ".csv" = true) data_path.

(** [load_data_fast(data_path, engine, chunksize)], the directory given by
    its entries in [os.listdir] order and the environment by its fault plan
    for each file. *)
Definition load_data_fast (data_path : list csv_file) (plan : string → faults)
    (chunksize : Z) : M unit :=
  print Checking;;
  let csv_files := list_csv_files data_path in
  print (FoundFiles (map fname csv_files));;
  match csv_files with
  | [] => print NoCsvFiles
  | _ =>
      for_files plan chunksize csv_files;;
      emit LogInfoCompleted;;
      print AllProcessed
  end.

(** The run of the script on a database: no connection open, nothing printed. *)
Definition initial (db : gmap string (list row)) : state := State db None [].

(** ** Vocabulary of the statements *)

(** What one pass over frames [fr] through the bulk-copy path sends and
    prints, and what it adds to the open transaction. *)
Definition copy_events (t : string) (fr : list chunk) : list event :=
  flat_map (λ c, [Copy t c; PbarUpdate (len c)]) fr.

Definition copies_of (t : string) (fr : list chunk) : list (string * list row) :=
  map (λ c, (t, rows c)) fr.

(** The data transfers among the events. *)
Definition is_transfer (e : event) : bool :=
  match e with
  | ToSql _ _ | Copy _ _ => true
  | _ => false
  end.

Definition transfers (evs : list event) : list event :=
  List.filter is_transfer evs.

(** The rows a list of copies adds to table [t]. *)
Definition added_to (t : string) (copies : list (string * list row)) : list row :=
  flat_map (λ c, if bool_decide (c.1 = t) then c.2 else []) copies.

(** Number of occurrences of an event. *)
Definition count (e : event) (evs : list event) : nat :=
  length (filter (λ x, x = e) evs).

(** What lines 45-54 print, and the pass over the file they make. *)
Definition pre_events (f : csv_file) : list event :=
  [Print (Starting (fname f)); Print (PreCounting (fname f));
   FileRead (fname f) (length (flines f));
   Print (FoundRows (Z.of_nat (length (flines f)) - 1))].

(** What the first-chunk insert of [c] prints and sends, up to the switch to
    the bulk path. *)
Definition insert_events (file t : string) (c : chunk) : list event :=
  [Print (InsertingFirst file); ToSql t c; PbarUpdate (len c);
   Print FirstInserted; Print Switching].

(** The events of the error handler once the raw connection is open: the
    error is logged and [rollback()] is called; it shows in the output when it
    returns. *)
Definition handler_events (fl : faults) (file : string) (e : exn) : list event :=
  LogErrorUploading file e ::
  match rollback_fault fl with
  | None => [Rollback]
  | Some _ => []
  end.

(** How the handler ends: normally, or with the exception of the rollback. *)
Definition handler_result (fl : faults) : result flow :=
  match rollback_fault fl with
  | None => Ret Next
  | Some msg => Exc (Fault msg)
  end.

(** The ways through lines 62-102 for a reader that holds [frames]: the
    result, the copies made visible in the database, the final value of
    [raw_conn], and the events between the opening and the closing of the
    progress bar. The events carry the table name as the script passes it. *)
Inductive upload_path (fl : faults) (file t : string) (frames : list chunk) :
    result flow → list (string * list row) → option connection → list event → Prop :=
| FirstPullFailed msg :
    upload_path fl file t frames (Ret Next) [] None
      [LogErrorUploading file (Fault msg)]
| NothingToPull :
    frames = [] →
    upload_path fl file t frames (Ret Continue) [] None
      [LogWarningEmpty file]
| InsertFailed c rest msg :
    frames = c :: rest →
    upload_path fl file t frames (Ret Next) [] None
      [Print (InsertingFirst file); LogErrorUploading file (Fault msg)]
| ConnectFailed c rest msg :
    frames = c :: rest →
    upload_path fl file t frames (Ret Next) [(t, rows c)] None
      (insert_events file t c ++ [LogErrorUploading file (Fault msg)])
| BulkFailed c rest n msg :
    frames = c :: rest → (n ≤ length rest)%nat →
    upload_path fl file t frames (handler_result fl) [(t, rows c)]
      (Some (Connection [] true))
      (insert_events file t c ++ RawConnect :: copy_events t (take n rest) ++
       handler_events fl file (Fault msg) ++ [Close; Print (ConnClosed file)])
| Loaded c rest :
    frames = c :: rest →
    upload_path fl file t frames (Ret Next)
      ((t, rows c) :: copies_of (copy_relation fl t) rest)
      (Some (Connection [] true))
      (insert_events file t c ++ RawConnect :: copy_events t rest ++
       [Commit; LogInfoIngested file; Close; Print (ConnClosed file)]).

(** The plan raises nothing ("absent errors"). *)
Definition fault_free (fl : faults) : Prop :=
  open_fault fl = None ∧ read_csv_fault fl = None ∧ to_sql_fault fl = None ∧
  raw_connection_fault fl = None ∧ cursor_fault fl = None ∧
  commit_fault fl = None ∧ rollback_fault fl = None ∧
  (∀ j, next_fault fl j = None) ∧ (∀ j, copy_fault fl j = None).

(** The plan lets everything up to the bulk copy of frame [k] through and
    makes that copy raise. *)
Definition copy_raises_at (fl : faults) (k : nat) (msg : string) : Prop :=
  open_fault fl = None ∧ read_csv_fault fl = None ∧ to_sql_fault fl = None ∧
  raw_connection_fault fl = None ∧ cursor_fault fl = None ∧
  (∀ j, (j ≤ k)%nat → next_fault fl j = None) ∧
  (∀ j, (j < k)%nat → copy_fault fl j = None) ∧
  copy_fault fl k = Some msg.

(** The plan that raises nothing, under a server that reads the table name
    of the [COPY] statement, where it is not a plain identifier, as relation
    [r]. *)
Definition copy_resolves_to (r : string) : faults :=
  Environment None None (λ _, None) None None None (λ _, None) (Some r) None None.

(** The plan whose only fault is raised by the bulk copy of frame [k]. *)
Definition copy_fails_at (k : nat) (msg : string) : faults :=
  Faults None (λ _, None) None None None
    (λ j, if (j =? k)%nat then Some msg else None) None None.

(** An event with the total of the progress bar, if it carries one, set to [x]. *)
Definition with_total (x : Z) (e : event) : event :=
  match e with
  | PbarOpen file _ => PbarOpen file x
  | _ => e
  end.


(** The lines of a file after its first. *)
Definition records (f : csv_file) : list row := tail (flines f).

(** The records pandas parses out of a file: its lines that are not blank,
    but for the first of them, the header. *)
Definition data_rows (f : csv_file) : list row := tail (data_lines (flines f)).


(** One run of the script on database [db]: the database it leaves. *)
Definition run (data_path : list csv_file) (plan : string → faults) (chunksize : Z)
    (db : gmap string (list row)) : gmap string (list row) :=
  tables (load_data_fast data_path plan chunksize (initial db)).2.

(** The names of the files whose processing was announced (line 45), in
    order. *)
Definition started (evs : list event) : list string :=
  omap (λ e, match e with Print (Starting file) => Some file | _ => None end) evs.

(** How far the progress bars were advanced: the sum of the [pbar.update]
    amounts. *)
Definition progress (evs : list event) : Z :=
  foldr (λ e acc, match e with PbarUpdate n => n + acc | _ => acc end) 0 evs.

(** Lines 17-24. The entries of [db_config.DB1_CONFIG] the script reads, each
    as the text the f-string formats it to, and the connection string built
    from them. *)
Record db_config : Type := DbConfig {
  user : string;
  password : string;
  host : string;
  port : string;
  dbname : string
}.

Definition conn_str (c : db_config) : string :=
  "postgresql+psycopg2://" +:+ user c +:+ ":" +:+ password c +:+ "@" +:+
  host c +:+ ":" +:+ port c +:+ "/" +:+ dbname c.

(** Lines 110-112: the call the script makes when run, on the listing of its
    data directory. *)
Definition main (data_path : list csv_file) (plan : string → faults) : M unit :=
  load_data_fast data_path plan 100000.

(** * Properties *)

(** ** Chunking *)

Section Chunking.
Variable c : nat.
Hypothesis c_pos : (1 ≤ c)%nat.

Lemma chunked_concat fuel (l : list row) :
  (length l ≤ fuel)%nat → concat (chunked fuel c l) = l.
Proof.
  revert l. induction fuel as [|fuel IH]; intros [|x l] Hl; simpl in *; try done; try lia.
  destruct c as [|c']; [lia|]. simpl. f_equal.
  rewrite IH by (rewrite length_drop; lia). apply take_drop.
Qed.

Lemma chunked_length fuel (l : list row) :
  (length l ≤ fuel)%nat →
  length (chunked fuel c l) = ((length l + c - 1) / c)%nat.
Proof.
  revert l. induction fuel as [|fuel IH]; intros l Hl.
  - destruct l; simpl in *; [|lia]. symmetry. apply Nat.div_small. lia.
  - destruct l as [|x l]; simpl chunked.
    + symmetry. apply Nat.div_small. simpl. lia.
    + cbn [length]. rewrite IH by (rewrite length_drop; simpl in *; lia).
      rewrite length_drop. cbn [length].
      destruct (decide (c ≤ S (length l))%nat) as [Hle|Hgt].
      * replace (S (length l) + c - 1)%nat
          with ((S (length l) - c + c - 1) + 1 * c)%nat by lia.
        rewrite Nat.div_add by lia. lia.
      * replace (S (length l) - c)%nat with 0%nat by lia.
        rewrite (Nat.div_small (0 + c - 1)) by lia.
        apply (Nat.div_unique _ _ 1%nat (length l)); lia.
Qed.

(** Every slice holds between 1 and [c] records. *)
Lemma chunked_sizes fuel (l : list row) :
  Forall (λ x, (1 ≤ length x ≤ c)%nat) (chunked fuel c l).
Proof.
  revert l. induction fuel as [|fuel IH]; intros [|x l]; simpl; try constructor; auto.
  rewrite length_take. simpl. lia.
Qed.

Lemma chunks_concat (l : list row) : concat (chunks c l) = l.
Proof. by apply chunked_concat. Qed.

Lemma chunks_length (l : list row) :
  length (chunks c l) = ((length l + c - 1) / c)%nat.
Proof. by apply chunked_length. Qed.

Lemma chunks_nonempty (l : list row) : l ≠ [] → chunks c l ≠ [].
Proof. unfold chunks. by destruct l. Qed.

End Chunking.

(** The reader holds a frame exactly when the file has a line that is not
    blank. *)
Lemma frames_of_nonempty c header recs :
  data_lines (header :: recs) ≠ [] → frames_of c header recs ≠ [].
Proof.
  unfold frames_of. destruct (data_lines (header :: recs)) as [|h rs]; [done|].
  intros _. by destruct (chunks c rs).
Qed.

Lemma frames_of_data_lines c header recs :
  frames_of c header recs ≠ [] → data_lines (header :: recs) ≠ [].
Proof. unfold frames_of. by destruct (data_lines (header :: recs)). Qed.

Lemma frames_of_rows c header recs :
  (1 ≤ c)%nat →
  flat_map rows (frames_of c header recs) = tail (data_lines (header :: recs)).
Proof.
  intros Hc. unfold frames_of.
  destruct (data_lines (header :: recs)) as [|h rs]; [done|]. cbn [tail].
  pose proof (chunks_concat c Hc rs) as Hcat.
  destruct (chunks c rs) as [|x l] eqn:E.
  - simpl in *. by subst.
  - rewrite <- Hcat. generalize (x :: l). intros ll.
    induction ll as [|y ll IH]; simpl; [done|]. by rewrite IH.
Qed.

(** A file without blank lines is parsed line by line. *)
Lemma data_lines_all lines :
  Forall (λ line, is_blank line = false) lines → data_lines lines = lines.
Proof.
  unfold data_lines. induction 1 as [|x l Hx _ IH]; [done|].
  cbn [List.filter]. by rewrite Hx, IH.
Qed.

Lemma data_lines_length lines : (length (data_lines lines) ≤ length lines)%nat.
Proof.
  unfold data_lines. induction lines as [|x l IH]; [done|].
  cbn [List.filter]. destruct (negb (is_blank x)); cbn [length]; lia.
Qed.

(** A plain identifier is read by the server as the table [to_sql] wrote. *)
Lemma copy_relation_plain fl name :
  plain_identifier name = true → copy_relation fl name = name.
Proof. unfold copy_relation. by intros ->. Qed.

(** ** The database *)

Lemma table_rows_append_rows t t' new db :
  table_rows (append_rows t' new db) t =
  table_rows db t ++ (if bool_decide (t' = t) then new else []).
Proof.
  unfold append_rows, table_rows. case_bool_decide as Ht.
  - subst. by rewrite lookup_insert_eq.
  - rewrite lookup_insert_ne by done. by rewrite app_nil_r.
Qed.


Lemma table_rows_apply_copies t copies : ∀ db,
  table_rows (apply_copies copies db) t = table_rows db t ++ added_to t copies.
Proof.
  induction copies as [|[t' new] copies IH]; intros db; simpl.
  - by rewrite app_nil_r.
  - change (table_rows (apply_copies copies (append_rows t' new db)) t =
            table_rows db t ++ (if bool_decide (t' = t) then new else []) ++ added_to t copies).
    by rewrite IH, table_rows_append_rows, <- app_assoc.
Qed.

(** A run of copies never removes a table. *)
Lemma apply_copies_keeps t copies : ∀ db,
  is_Some (db !! t) → is_Some (apply_copies copies db !! t).
Proof.
  induction copies as [|[t' new] copies IH]; intros db Hdb; simpl; [done|].
  apply IH. unfold append_rows. destruct (decide (t' = t)) as [->|].
  - rewrite lookup_insert_eq. eauto.
  - by rewrite lookup_insert_ne.
Qed.


Lemma added_to_copies_of t t' fr :
  added_to t (copies_of t' fr) = if bool_decide (t' = t) then flat_map rows fr else [].
Proof.
  induction fr as [|c fr IH]; simpl; [by case_bool_decide|].
  rewrite IH. case_bool_decide; by simpl.
Qed.

(** ** Events *)

Lemma count_app e l1 l2 : count e (l1 ++ l2) = (count e l1 + count e l2)%nat.
Proof. unfold count. by rewrite filter_app, length_app. Qed.

Lemma count_cons e x l :
  count e (x :: l) = ((if bool_decide (x = e) then 1 else 0) + count e l)%nat.
Proof. unfold count. rewrite filter_cons. case_decide; case_bool_decide; done. Qed.

Lemma count_copy_events e t fr :
  (∀ t' c', e ≠ Copy t' c') → (∀ n, e ≠ PbarUpdate n) → count e (copy_events t fr) = 0%nat.
Proof.
  intros H1 H2. induction fr as [|c fr IH]; [done|]. simpl.
  rewrite !count_cons, IH. repeat case_bool_decide; try done; exfalso; naive_solver.
Qed.

Lemma count_nil e : count e [] = 0%nat.
Proof. reflexivity. Qed.

Lemma elem_of_count e l : e ∈ l ↔ (0 < count e l)%nat.
Proof.
  unfold count. split.
  - intros Hin. assert (He : e ∈ filter (λ x, x = e) l) by by apply list_elem_of_filter.
    destruct (filter _ l); [by apply elem_of_nil in He|simpl; lia].
  - intros Hlen. destruct (filter (λ x, x = e) l) as [|y l'] eqn:E; [simpl in Hlen; lia|].
    assert (Hy : y ∈ filter (λ x, x = e) l) by (rewrite E; left).
    apply list_elem_of_filter in Hy as [-> ?]. done.
Qed.

Lemma not_elem_of_count e l : e ∉ l ↔ count e l = 0%nat.
Proof. rewrite elem_of_count. lia. Qed.

Lemma transfers_app l1 l2 : transfers (l1 ++ l2) = transfers l1 ++ transfers l2.
Proof. unfold transfers. apply List.filter_app. Qed.

Lemma transfers_cons e l :
  transfers (e :: l) = if is_transfer e then e :: transfers l else transfers l.
Proof. reflexivity. Qed.

Lemma transfers_nil : transfers [] = [].
Proof. reflexivity. Qed.

Lemma transfers_copy_events t fr : transfers (copy_events t fr) = map (Copy t) fr.
Proof. induction fr as [|c fr IH]; simpl; [done|]. by rewrite <- IH. Qed.

Lemma elem_of_copy_events e t fr :
  e ∈ copy_events t fr → (∃ c, c ∈ fr ∧ e = Copy t c) ∨ ∃ n, e = PbarUpdate n.
Proof.
  induction fr as [|c fr IH]; simpl; [by intros ?%elem_of_nil|].
  rewrite !elem_of_cons. intros [->|[->|H]]; eauto.
  - left. exists c. by rewrite elem_of_cons; eauto.
  - destruct (IH H) as [(c' & ? & ?)|]; eauto.
    left. exists c'. rewrite elem_of_cons; eauto.
Qed.

Ltac list_norm :=
  repeat (progress (rewrite <- ?app_assoc; cbn [app])); try reflexivity.

Ltac count_norm :=
  unfold pre_events, insert_events, handler_events;
  repeat match goal with
         | |- context [rollback_fault ?fl] => destruct (rollback_fault fl)
         end;
  repeat first
    [ rewrite count_app | rewrite count_cons | rewrite count_nil
    | rewrite count_copy_events by done ];
  repeat match goal with
         | |- context [bool_decide (?a = ?b)] =>
             first [ rewrite (bool_decide_eq_false_2 (a = b)) by discriminate
                   | rewrite (bool_decide_eq_true_2 (a = b)) by reflexivity ]
         end;
  try (intros; lia).

Ltac transfers_norm :=
  unfold pre_events, insert_events, handler_events;
  repeat (rewrite ?transfers_app, ?transfers_cons, ?transfers_copy_events, ?transfers_nil;
          cbn [is_transfer app]).

(** ** File names *)

Module StrFacts.
Import Str.

Lemma rfind_from_app c l1 l2 i found :
  rfind_from c (l1 ++ l2) i found =
  rfind_from c l2 (i + Z.of_nat (length l1)) (rfind_from c l1 i found).
Proof.
  revert i found. induction l1 as [|x l1 IH]; intros i found; simpl.
  - by rewrite Z.add_0_r.
  - rewrite IH. f_equal. lia.
Qed.

Lemma rfind_from_absent c l i found :
  c ∉ l → rfind_from c l i found = found.
Proof.
  revert i found. induction l as [|x l IH]; intros i found Hc; simpl; [done|].
  apply not_elem_of_cons in Hc as [Hx Hl]. rewrite IH by done.
  destruct (Ascii.eqb_spec x c); congruence.
Qed.

Lemma rfind_absent c l : c ∉ l → rfind c l = -1.
Proof. apply rfind_from_absent. Qed.

(** [rfind] gives the position of the last occurrence. *)
Lemma rfind_last c l1 l2 :
  c ∉ l2 → rfind c (l1 ++ c :: l2) = Z.of_nat (length l1).
Proof.
  intros Hc. unfold rfind. rewrite rfind_from_app. simpl.
  rewrite Ascii.eqb_refl. by rewrite rfind_from_absent.
Qed.

Lemma is_dot_spec x : is_dot x = true ↔ x = "."%char.
Proof. unfold is_dot. by destruct (Ascii.eqb_spec x "."). Qed.

Lemma skip_leading_dots_spec b : ∀ a l2,
  skip_leading_dots (length b) "." (a ++ b ++ "."%char :: l2)
    (length (a ++ b)) (length a) =
  if forallb is_dot b then (a ++ b ++ "."%char :: l2, [])
  else (a ++ b, "."%char :: l2).
Proof.
  induction b as [|x b IH]; intros a l2; [done|].
  cbn [length skip_leading_dots forallb].
  rewrite drop_app_length. cbn [app take].
  destruct (is_dot x) eqn:Hx.
  - apply is_dot_spec in Hx as ->. rewrite bool_decide_eq_true_2 by done.
    cbn [andb].
    replace (a ++ "."%char :: b ++ "."%char :: l2)
      with ((a ++ ["."%char]) ++ b ++ "."%char :: l2) by (by rewrite <- app_assoc).
    replace (length (a ++ "."%char :: b))
      with (length ((a ++ ["."%char]) ++ b)) by (by rewrite <- app_assoc).
    replace (S (length a)) with (length (a ++ ["."%char]))
      by (rewrite length_app; simpl; lia).
    rewrite IH. by rewrite <- !app_assoc.
  - rewrite bool_decide_eq_false_2.
    2:{ intros [= ->]. by rewrite (proj2 (is_dot_spec _)) in Hx. }
    cbn [andb].
    replace (a ++ x :: b ++ "."%char :: l2)
      with ((a ++ x :: b) ++ "."%char :: l2) by (by rewrite <- app_assoc).
    by rewrite take_app_length, drop_app_length.
Qed.

Lemma cut_last_dot_absent l : "."%char ∉ l → cut_last_dot l = None.
Proof.
  induction l as [|x l IH]; [done|]. intros [Hx Hl]%not_elem_of_cons. simpl.
  rewrite IH by done. destruct (is_dot x) eqn:E; [|done].
  by apply is_dot_spec in E.
Qed.

Lemma cut_last_dot_last l1 l2 :
  "."%char ∉ l2 → cut_last_dot (l1 ++ "."%char :: l2) = Some l1.
Proof.
  intros Hl2. induction l1 as [|x l1 IH]; simpl.
  - by rewrite cut_last_dot_absent.
  - by rewrite IH.
Qed.

Lemma stem_chars_absent l : "."%char ∉ l → stem_chars l = l.
Proof.
  destruct l as [|x l]; [done|]. intros Hl. cbn [stem_chars].
  pose proof Hl as [Hx _]%not_elem_of_cons.
  destruct (is_dot x) eqn:E; [by apply is_dot_spec in E|].
  by rewrite (cut_last_dot_absent (x :: l) Hl).
Qed.

Lemma stem_chars_last l1 l2 :
  "."%char ∉ l2 →
  stem_chars (l1 ++ "."%char :: l2) =
  if forallb is_dot l1 then l1 ++ "."%char :: l2 else l1.
Proof.
  intros Hl2. induction l1 as [|x l1 IH].
  - simpl. by rewrite stem_chars_absent.
  - cbn [app stem_chars forallb]. destruct (is_dot x) eqn:E.
    + rewrite IH. cbn [andb]. by destruct (forallb is_dot l1).
    + cbn [andb].
      change (x :: l1 ++ "."%char :: l2) with ((x :: l1) ++ "."%char :: l2).
      by rewrite (cut_last_dot_last (x :: l1) l2 Hl2).
Qed.

(** On a name without directory separator, [_splitext] returns the stem. *)
Lemma splitext_stem sep altsep p :
  sep ∉ p → (∀ a, altsep = Some a → a ∉ p) →
  (_splitext sep altsep "." p).1 = stem_chars p.
Proof.
  intros Hsep Halt. unfold _splitext. rewrite (rfind_absent sep) by done.
  assert (Hs : match altsep with
               | Some a => Z.max (-1) (rfind a p)
               | None => -1
               end = -1).
  { destruct altsep as [a|]; [|done]. by rewrite (rfind_absent a) by auto. }
  rewrite Hs. clear Hs.
  destruct (decide ("."%char ∈ p)) as [Hdot|Hdot].
  - apply list_elem_of_split_r in Hdot as (l1 & l2 & -> & Hl2).
    rewrite rfind_last, stem_chars_last by done.
    destruct (Z.ltb_spec (-1) (Z.of_nat (length l1))); [|lia].
    replace (Z.to_nat (Z.of_nat (length l1) - (-1 + 1))) with (length l1) by lia.
    replace (Z.to_nat (Z.of_nat (length l1))) with (length ([] ++ l1)) by (simpl; lia).
    replace (Z.to_nat (-1 + 1)) with (length (@nil ascii)) by done.
    change (l1 ++ "."%char :: l2) with ([] ++ l1 ++ "."%char :: l2).
    rewrite skip_leading_dots_spec.
    by destruct (forallb is_dot l1).
  - rewrite rfind_absent by done. simpl. by rewrite stem_chars_absent.
Qed.

Lemma chars_of_chars l : chars (of_chars l) = l.
Proof. apply list_ascii_of_string_of_list_ascii. Qed.

Lemma of_chars_chars s : of_chars (chars s) = s.
Proof. apply string_of_list_ascii_of_string. Qed.

Lemma ntpath_splitext_stem file :
  "\"%char ∉ chars file → "/"%char ∉ chars file →
  (ntpath_splitext file).1 = stem file.
Proof.
  intros H1 H2. unfold ntpath_splitext, stem.
  rewrite <- (splitext_stem "\" (Some "/"%char) (chars file)); [|done|by intros ? [= <-]].
  by destruct (_splitext _ _ _ _).
Qed.

Lemma posixpath_splitext_stem file :
  "/"%char ∉ chars file → (posixpath_splitext file).1 = stem file.
Proof.
  intros H1. unfold posixpath_splitext, stem.
  rewrite <- (splitext_stem "/" None (chars file)); [|done|done].
  by destruct (_splitext _ _ _ _).
Qed.

(** The stem of [base.csv] is [base], unless [base] consists of periods only
    (it may be empty): then the whole name is the stem. *)
Lemma stem_csv base :
  stem_chars (base ++ chars ".csv") =
  if forallb is_dot base then base ++ chars ".csv" else base.
Proof.
  change (chars ".csv") with ("."%char :: chars "csv").
  apply stem_chars_last. unfold chars. cbn [list_ascii_of_string].
  rewrite !not_elem_of_cons. repeat split; try discriminate. apply not_elem_of_nil.
Qed.

End StrFacts.

(** ** The loop over the remaining chunks *)

Lemma copy_chunk_run fl t k c db conn o :
  copy_chunk fl t k c (State db (Some conn) o) =
  match copy_fault fl k with
  | Some msg => (Exc (Fault msg), State db (Some conn) o)
  | None =>
      (Ret tt,
       State db (Some (Connection (pending conn ++ [(copy_relation fl t, rows c)])
                                  (closed conn)))
             (o ++ [Copy t c; PbarUpdate (len c)]))
  end.
Proof.
  unfold copy_chunk, copy_expert, on_raw_conn, bind, pbar_update, emit. simpl.
  destruct (copy_fault fl k); simpl; [done|]. by rewrite <- app_assoc.
Qed.

Lemma for_frames_nil fl body k s :
  for_frames fl [] k body s =
  match next_fault fl k with
  | Some msg => (Exc (Fault msg), s)
  | None => (Ret tt, s)
  end.
Proof. simpl. unfold bind, call. by destruct (next_fault fl k). Qed.

Lemma for_frames_cons fl body c fr k s :
  for_frames fl (c :: fr) k body s =
  match next_fault fl k with
  | Some msg => (Exc (Fault msg), s)
  | None =>
      match body k c s with
      | (Ret _, s1) => for_frames fl fr (S k) body s1
      | (Exc e, s1) => (Exc e, s1)
      end
  end.
Proof.
  simpl. unfold bind, call. destruct (next_fault fl k); simpl; [done|].
  by destruct (body k c s) as [[] ?].
Qed.

(** The loop is [next] repeated until [StopIteration]. *)
Lemma for_chunk_in_next fl r body s :
  for_chunk_in fl r body s =
  match next fl r s with
  | (Ret (c, r'), s1) =>
      match body (pulled r) c s1 with
      | (Ret _, s2) => for_chunk_in fl r' body s2
      | (Exc e, s2) => (Exc e, s2)
      end
  | (Exc StopIteration, s1) => (Ret tt, s1)
  | (Exc e, s1) => (Exc e, s1)
  end.
Proof.
  destruct r as [fr k]. unfold for_chunk_in, next. cbn [frames pulled].
  destruct fr as [|c fr]; [rewrite for_frames_nil|rewrite for_frames_cons];
    unfold bind, call, raise, ret; by destruct (next_fault fl k).
Qed.

(** Whatever the plan, the loop copies some first [n] frames into the open
    transaction, touches nothing else, and either gets through all frames or
    stops on a raised fault. *)
Lemma for_frames_spec fl t fr : ∀ k,
  ∃ n r,
    (n ≤ length fr)%nat ∧
    (r = Ret tt ∧ n = length fr ∨ ∃ msg, r = Exc (Fault msg)) ∧
    ∀ db conn o,
      for_frames fl fr k (copy_chunk fl t) (State db (Some conn) o) =
      (r, State db (Some (Connection
                            (pending conn ++ copies_of (copy_relation fl t) (take n fr))
                            (closed conn)))
                (o ++ copy_events t (take n fr))).
Proof.
  induction fr as [|c fr IH]; intros k.
  - exists 0%nat. destruct (next_fault fl k) as [msg|] eqn:Hn;
      [exists (Exc (Fault msg))|exists (Ret tt)];
      (split; [simpl; lia|split; [eauto|]]); intros db [p cl] o;
      rewrite for_frames_nil, Hn; simpl; by rewrite !app_nil_r.
  - destruct (next_fault fl k) as [msg|] eqn:Hn.
    { exists 0%nat, (Exc (Fault msg)). split; [lia|]. split; [eauto|].
      intros db [p cl] o.
      rewrite for_frames_cons, Hn. simpl. by rewrite !app_nil_r. }
    destruct (copy_fault fl k) as [msg|] eqn:Hc.
    { exists 0%nat, (Exc (Fault msg)). split; [lia|]. split; [eauto|].
      intros db [p cl] o.
      rewrite for_frames_cons, Hn, copy_chunk_run, Hc. simpl. by rewrite !app_nil_r. }
    destruct (IH (S k)) as (n & r & Hle & Hr & Heq).
    exists (S n), r. split; [simpl; lia|]. split.
    { destruct Hr as [[-> ->]|]; eauto. }
    intros db [p cl] o. rewrite for_frames_cons, Hn, copy_chunk_run, Hc.
    cbn [pending closed]. rewrite Heq. simpl. by rewrite <- !app_assoc.
Qed.

Lemma for_frames_ok fl t fr : ∀ k db conn o,
  (∀ j, (k ≤ j ≤ k + length fr)%nat → next_fault fl j = None) →
  (∀ j, (k ≤ j < k + length fr)%nat → copy_fault fl j = None) →
  for_frames fl fr k (copy_chunk fl t) (State db (Some conn) o) =
    (Ret tt,
     State db (Some (Connection (pending conn ++ copies_of (copy_relation fl t) fr)
                                (closed conn)))
           (o ++ copy_events t fr)).
Proof.
  induction fr as [|c fr IH]; intros k db [p cl] o Hn Hc.
  - rewrite for_frames_nil, Hn by (simpl; lia). simpl. by rewrite !app_nil_r.
  - rewrite for_frames_cons, copy_chunk_run, Hn, Hc by (simpl; lia).
    cbn [pending closed].
    rewrite IH; [simpl; by rewrite <- !app_assoc| |];
      intros j Hj; [apply Hn|apply Hc]; simpl; lia.
Qed.

Lemma for_frames_copy_fault fl t fr msg : ∀ i k db conn o,
  (i < length fr)%nat →
  (∀ j, (k ≤ j ≤ k + i)%nat → next_fault fl j = None) →
  (∀ j, (k ≤ j < k + i)%nat → copy_fault fl j = None) →
  copy_fault fl (k + i) = Some msg →
  for_frames fl fr k (copy_chunk fl t) (State db (Some conn) o) =
    (Exc (Fault msg),
     State db (Some (Connection
                         (pending conn ++ copies_of (copy_relation fl t) (take i fr))
                         (closed conn)))
           (o ++ copy_events t (take i fr))).
Proof.
  induction fr as [|c fr IH]; intros i k db [p cl] o Hi Hn Hc Hf; [simpl in Hi; lia|].
  rewrite for_frames_cons, copy_chunk_run, Hn by lia. cbn [pending closed].
  destruct i as [|i].
  - rewrite Nat.add_0_r in Hf. rewrite Hf. simpl. by rewrite !app_nil_r.
  - rewrite Hc by lia.
    rewrite (IH i); [simpl; by rewrite <- !app_assoc|simpl in Hi; lia| | |].
    + intros j Hj. apply Hn. lia.
    + intros j Hj. apply Hc. lia.
    + by replace (S k + i)%nat with (k + S i)%nat by lia.
Qed.

(** ** The ways through one file *)

Ltac run_step :=
  unfold upload, with_tqdm, with_cursor, with_, try_except_finally, for_chunk_in,
    if_raw_conn, commit, rollback, close, raw_connection, to_sql, next,
    reset_raw_conn, on_raw_conn, pbar_update, print, emit, call, raise, ret, bind;
  simpl.

Ltac tidy := simpl; rewrite <- ?app_assoc; simpl; try reflexivity.

Lemma upload_paths fl file t frames k :
  ∃ r copies conn evs,
    upload_path fl file t frames r copies conn evs ∧
    ∀ total db rc o,
      upload fl file t total (Reader frames k) (State db rc o) =
      (r, State (apply_copies copies db) conn
                (o ++ PbarOpen file total :: evs ++ [PbarClose])).
Proof.
  destruct (next_fault fl k) as [m|] eqn:Hnext.
  { do 4 eexists. split; [apply (FirstPullFailed _ _ _ _ m)|].
    intros. run_step. rewrite Hnext. tidy. }
  destruct frames as [|c rest].
  { do 4 eexists. split; [by apply NothingToPull|].
    intros. run_step. rewrite Hnext. tidy. }
  destruct (to_sql_fault fl) as [m|] eqn:Hsql.
  { do 4 eexists. split; [by apply (InsertFailed _ _ _ _ c rest m)|].
    intros. run_step. rewrite Hnext, Hsql. tidy. }
  destruct (raw_connection_fault fl) as [m|] eqn:Hconn.
  { do 4 eexists. split; [by apply (ConnectFailed _ _ _ _ c rest m)|].
    intros. run_step. rewrite Hnext, Hsql, Hconn. tidy. }
  destruct (cursor_fault fl) as [m|] eqn:Hcur.
  { do 4 eexists. split; [apply (BulkFailed _ _ _ _ c rest 0 m); [done|lia]|].
    intros. run_step. rewrite Hnext, Hsql, Hconn, Hcur. simpl.
    unfold handler_result, handler_events.
    destruct (rollback_fault fl); tidy. }
  destruct (for_frames_spec fl t rest (S k)) as (n & r & Hle & Hr & Hloop).
  destruct Hr as [[-> ->]|[m ->]].
  - destruct (commit_fault fl) as [m|] eqn:Hcom.
    + do 4 eexists. split; [by apply (BulkFailed _ _ _ _ c rest (length rest) m)|].
      intros. run_step. rewrite Hnext, Hsql, Hconn, Hcur. simpl. rewrite Hloop. simpl.
      rewrite Hcom. simpl. unfold handler_result, handler_events.
      destruct (rollback_fault fl); tidy.
    + do 4 eexists. split; [by apply (Loaded _ _ _ _ c rest)|].
      intros. run_step. rewrite Hnext, Hsql, Hconn, Hcur. simpl. rewrite Hloop. simpl.
      rewrite Hcom. simpl. rewrite firstn_all. tidy.
  - do 4 eexists. split; [by apply (BulkFailed _ _ _ _ c rest n m)|].
    intros. run_step. rewrite Hnext, Hsql, Hconn, Hcur. simpl. rewrite Hloop. simpl.
    unfold handler_result, handler_events.
    destruct (rollback_fault fl); tidy.
Qed.

Lemma process_file_run fl C f db rc o :
  process_file fl C f (State db rc o) =
  match open_fault fl with
  | Some m =>
      (Exc (Fault m),
       State db rc (o ++ [Print (Starting (fname f)); Print (PreCounting (fname f))]))
  | None =>
      if C <? 1 then (Exc ValueError, State db rc (o ++ pre_events f))
      else match read_csv_fault fl with
           | Some m => (Exc (Fault m), State db rc (o ++ pre_events f))
           | None =>
               match flines f with
               | [] => (Exc EmptyDataError, State db rc (o ++ pre_events f))
               | header :: recs =>
                   match data_lines (header :: recs) with
                   | [] => (Exc EmptyDataError, State db rc (o ++ pre_events f))
                   | _ =>
                       upload fl (fname f) (table_name_of (fname f))
                         (Z.of_nat (length (flines f)) - 1)
                         (Reader (frames_of (Z.to_nat C) header recs) 0)
                         (State db rc (o ++ pre_events f))
                   end
               end
           end
  end.
Proof.
  unfold process_file, count_lines, pd_read_csv, print, emit, call, raise, ret, bind.
  simpl. destruct (open_fault fl); simpl; rewrite <- ?app_assoc; simpl; [done|].
  unfold pre_events.
  destruct (C <? 1); [reflexivity|]. destruct (read_csv_fault fl); [reflexivity|].
  simpl. destruct (flines f) eqn:E; [reflexivity|].
  by destruct (data_lines _).
Qed.

(** Once the count and [pd.read_csv] have gone through, the body is lines
    60-102 on the frames of the file. *)
Lemma process_file_upload fl C f header recs db rc o :
  open_fault fl = None → 1 ≤ C → read_csv_fault fl = None →
  flines f = header :: recs → data_lines (header :: recs) ≠ [] →
  process_file fl C f (State db rc o) =
  upload fl (fname f) (table_name_of (fname f))
    (Z.of_nat (length (flines f)) - 1)
    (Reader (frames_of (Z.to_nat C) header recs) 0)
    (State db rc (o ++ pre_events f)).
Proof.
  intros Hopen HC Hrcsv Hl Hd. rewrite process_file_run, Hopen, Hrcsv.
  destruct (Z.ltb_spec C 1); [lia|]. rewrite Hl.
  by destruct (data_lines (header :: recs)).
Qed.

Lemma no_faults_fault_free : fault_free no_faults.
Proof. by repeat split. Qed.

Lemma upload_ok fl file t total c rest k db rc o :
  fault_free fl →
  upload fl file t total (Reader (c :: rest) k) (State db rc o) =
  (Ret Next,
   State (apply_copies ((t, rows c) :: copies_of (copy_relation fl t) rest) db)
         (Some (Connection [] true))
         (o ++ PbarOpen file total :: insert_events file t c ++
               RawConnect :: copy_events t rest ++
               [Commit; LogInfoIngested file; Close; Print (ConnClosed file);
                PbarClose])).
Proof.
  intros (Hopen & Hrcsv & Hsql & Hconn & Hcur & Hcom & Hrb & Hnext & Hcopy).
  run_step. rewrite Hnext, Hsql, Hconn, Hcur. simpl.
  rewrite (for_frames_ok fl t rest) by done. simpl. rewrite Hcom. tidy.
Qed.

Lemma upload_copy_fault fl file t total c rest k msg db rc o :
  copy_raises_at fl k msg → (1 ≤ k ≤ length rest)%nat →
  upload fl file t total (Reader (c :: rest) 0) (State db rc o) =
  (handler_result fl,
   State (append_rows t (rows c) db) (Some (Connection [] true))
         (o ++ PbarOpen file total :: insert_events file t c ++
               RawConnect :: copy_events t (take (k - 1) rest) ++
               handler_events fl file (Fault msg) ++
               [Close; Print (ConnClosed file); PbarClose])).
Proof.
  intros (Hopen & Hrcsv & Hsql & Hconn & Hcur & Hnext & Hcopy & Hk) Hrange.
  run_step. rewrite (Hnext 0%nat), Hsql, Hconn, Hcur by lia. simpl.
  rewrite (for_frames_copy_fault fl t rest msg (k - 1));
    [|lia|intros; apply Hnext; lia|intros; apply Hcopy; lia
     |by replace (1 + (k - 1))%nat with k by lia].
  simpl. unfold handler_result, handler_events.
  destruct (rollback_fault fl); tidy.
Qed.

(** A file is followed by the next one exactly when its body returns. *)
Lemma for_files_cons plan C f more s :
  for_files plan C (f :: more) s =
  match process_file (plan (fname f)) C f s with
  | (Ret _, s1) => for_files plan C more s1
  | (Exc e, s1) => (Exc e, s1)
  end.
Proof. simpl. unfold bind. by destruct (process_file _ _ _ _) as [[] ?]. Qed.

(** ** Loading a file without errors *)

Lemma div_ceil_nat (n c : nat) (C : Z) :
  1 ≤ C → c = Z.to_nat C →
  Z.of_nat ((n + c - 1) / c) = (Z.of_nat n + C - 1) / C.
Proof.
  intros HC ->. rewrite Nat2Z.inj_div. f_equal; lia.
Qed.

Lemma frames_of_chunks c header recs h rs first rest :
  data_lines (header :: recs) = h :: rs → chunks c rs = first :: rest →
  frames_of c header recs = Chunk h first :: map (Chunk h) rest.
Proof. unfold frames_of. by intros -> ->. Qed.

(** X19. A file of N >= 1 records (lines that are not blank, after the
    header; no field runs over a line break) whose table name is a plain
    identifier, read with chunk size C >= 1 under a plan that raises nothing:
    the body of the loop returns; the records are cut into ceil(N / C)
    frames; the first goes through [to_sql], each later one through
    [copy_expert], in file order; and the target table gains exactly the N
    records. *)
Theorem rows_loaded_in_chunks (fl : faults) (C : Z) (f : csv_file) (s : state) :
  fault_free fl → 1 ≤ C → data_rows f ≠ [] → plain_lines (flines f) = true →
  plain_identifier (table_name_of (fname f)) = true →
  ∃ header first rest s',
    process_file fl C f s = (Ret Next, s') ∧
    head (data_lines (flines f)) = Some header ∧
    chunks (Z.to_nat C) (data_rows f) = first :: rest ∧
    Z.of_nat (length (first :: rest)) =
      (Z.of_nat (length (data_rows f)) + C - 1) / C ∧
    transfers (out s') =
      transfers (out s) ++
      ToSql (table_name_of (fname f)) (Chunk header first) ::
      map (λ x, Copy (table_name_of (fname f)) (Chunk header x)) rest ∧
    table_rows (tables s') (table_name_of (fname f)) =
      table_rows (tables s) (table_name_of (fname f)) ++ data_rows f ∧
    length (table_rows (tables s') (table_name_of (fname f))) =
      (length (table_rows (tables s) (table_name_of (fname f))) +
       length (data_rows f))%nat.
Proof.
  intros Hfree HC Hrecs _ Hplain. destruct s as [db rc o].
  assert (Hc : (1 ≤ Z.to_nat C)%nat) by lia.
  unfold data_rows in *.
  destruct (flines f) as [|header0 recs0] eqn:Hl; [done|].
  destruct (data_lines (header0 :: recs0)) as [|h rs] eqn:Hd; [done|].
  cbn [tail head] in *.
  pose proof (chunks_length _ Hc rs) as Hlen.
  pose proof (chunks_concat _ Hc rs) as Hcat.
  pose proof (chunks_nonempty (Z.to_nat C) rs Hrecs) as Hne.
  destruct (chunks (Z.to_nat C) rs) as [|first rest] eqn:Hch; [done|].
  exists h, first, rest. eexists. split.
  { rewrite process_file_run. rewrite (proj1 Hfree).
    destruct (Z.ltb_spec C 1) as [?|_]; [lia|].
    rewrite (proj1 (proj2 Hfree)), Hl, Hd.
    rewrite (frames_of_chunks _ _ _ _ _ _ _ Hd Hch). by apply upload_ok. }
  split; [done|]. split; [done|]. split.
  { rewrite Hlen. by apply div_ceil_nat. }
  cbn [out tables]. rewrite (copy_relation_plain _ _ Hplain).
  assert (Htab : table_rows
            (apply_copies ((table_name_of (fname f), rows (Chunk h first)) ::
               copies_of (table_name_of (fname f)) (map (Chunk h) rest)) db)
            (table_name_of (fname f)) = table_rows db (table_name_of (fname f)) ++ rs).
  { change ((table_name_of (fname f), rows (Chunk h first)) ::
            copies_of (table_name_of (fname f)) (map (Chunk h) rest))
      with (copies_of (table_name_of (fname f)) (Chunk h first :: map (Chunk h) rest)).
    rewrite table_rows_apply_copies, added_to_copies_of.
    rewrite bool_decide_eq_true_2 by done. rewrite <- Hcat.
    f_equal. cbn [flat_map rows concat]. f_equal.
    clear. induction rest as [|y rest IH]; [done|]. cbn. by rewrite IH. }
  split; [|split; [exact Htab|by rewrite Htab, length_app]].
  transfers_norm. by rewrite !app_nil_r, map_map.
Qed.

Lemma rows_loaded_in_chunks_witness :
  fault_free no_faults ∧ 1 ≤ 2 ∧
  data_rows (CsvFile "sales.csv" ["id,amt"; "1,10"; " "; "2,20"; "3,30"; "4,40"; "5,50"])
    ≠ [] ∧
  plain_lines ["id,amt"; "1,10"; " "; "2,20"; "3,30"; "4,40"; "5,50"] = true ∧
  plain_identifier (table_name_of "sales.csv") = true ∧
  ∃ first rest s',
    process_file no_faults 2
      (CsvFile "sales.csv" ["id,amt"; "1,10"; " "; "2,20"; "3,30"; "4,40"; "5,50"])
      (initial ∅) = (Ret Next, s') ∧
    chunks 2 ["1,10"; "2,20"; "3,30"; "4,40"; "5,50"] = first :: rest ∧
    length (first :: rest) = 3%nat ∧
    table_rows (tables s') "sales" = ["1,10"; "2,20"; "3,30"; "4,40"; "5,50"].
Proof.
  split; [exact no_faults_fault_free|]. split; [lia|]. split; [done|].
  split; [reflexivity|]. split; [reflexivity|].
  destruct (rows_loaded_in_chunks no_faults 2
              (CsvFile "sales.csv" ["id,amt"; "1,10"; " "; "2,20"; "3,30"; "4,40"; "5,50"])
              (initial ∅))
    as (header & first & rest & s' & Hrun & _ & Hch & Hlen & _ & Hrows & _);
    [exact no_faults_fault_free|lia|done|reflexivity|reflexivity|].
  exists first, rest, s'. split; [exact Hrun|]. split; [exact Hch|].
  split; [|exact Hrows].
  apply Nat2Z.inj. rewrite Hlen. reflexivity.
Defined.

(** C1, at a file whose name holds a period before its extension, read with
    chunk size 2 under a plan that raises nothing, on a server that reads
    [public.sales] as table [sales] of schema [public] (as PostgreSQL does)
    and holds such a table. The three records are read as two chunks, the
    first sent by [to_sql] and the second by bulk copy, nothing is raised and
    the file is logged as ingested; but the target table [public.sales]
    holds the two rows of the first chunk only: the third row went to table
    [sales]. Line 84 writes the table name into the statement unquoted, where
    line 83 quotes the column names. *)
Theorem bulk_copy_misses_table_of_dotted_name :
  fault_free (copy_resolves_to "sales") ∧
  load_data_fast
    [CsvFile "public.sales.csv" ["id,amt"; "1,10"; "2,20"; "3,30"]]
    (λ _, copy_resolves_to "sales") 2 (initial {["sales" := ["0,0"]]}) =
  (Ret tt,
   State {["public.sales" := ["1,10"; "2,20"]; "sales" := ["0,0"; "3,30"]]}
     (Some (Connection [] true))
     [Print Checking; Print (FoundFiles ["public.sales.csv"]);
      Print (Starting "public.sales.csv"); Print (PreCounting "public.sales.csv");
      FileRead "public.sales.csv" 4; Print (FoundRows 3);
      PbarOpen "public.sales.csv" 3; Print (InsertingFirst "public.sales.csv");
      ToSql "public.sales" (Chunk "id,amt" ["1,10"; "2,20"]); PbarUpdate 2;
      Print FirstInserted; Print Switching; RawConnect;
      Copy "public.sales" (Chunk "id,amt" ["3,30"]); PbarUpdate 1; Commit;
      LogInfoIngested "public.sales.csv"; Close;
      Print (ConnClosed "public.sales.csv"); PbarClose; LogInfoCompleted;
      Print AllProcessed]).
Proof. split; [by repeat split|]. vm_compute. reflexivity. Qed.

(** ** A bulk copy that raises *)

(** C2, as amended. When the bulk copy of frame [k] raises (everything before
    it having gone through): nothing is committed; the frames sent are the
    first chunk and the bulk frames before [k]; afterwards the database holds
    the rows of the first chunk and no row of the bulk phase; and, when the
    rollback the handler calls returns, the transaction of the raw connection
    is rolled back once, the body returns and the loop goes on with the next
    file. When the rollback raises, its exception leaves the body. *)
Theorem bulk_copy_failure_rolls_back (fl : faults) (file header : string)
    (recs : list row) (C : Z) (k : nat) (msg : string) (s : state) :
  1 ≤ C →
  copy_raises_at fl k msg →
  (1 ≤ k < length (frames_of (Z.to_nat C) header recs))%nat →
  ∃ first rest s' evs,
    frames_of (Z.to_nat C) header recs = first :: rest ∧
    (process_file fl C (CsvFile file (header :: recs)) s).2 = s' ∧
    out s' = out s ++ evs ∧
    count Commit evs = 0%nat ∧
    transfers evs =
      ToSql (table_name_of file) first ::
      map (Copy (table_name_of file)) (take (k - 1) rest) ∧
    tables s' = append_rows (table_name_of file) (rows first) (tables s) ∧
    (rollback_fault fl = None →
     count Rollback evs = 1%nat ∧
     (process_file fl C (CsvFile file (header :: recs)) s).1 = Ret Next ∧
     ∀ plan more,
       plan file = fl →
       for_files plan C (CsvFile file (header :: recs) :: more) s =
       for_files plan C more s') ∧
    (∀ m, rollback_fault fl = Some m →
          (process_file fl C (CsvFile file (header :: recs)) s).1 = Exc (Fault m)).
Proof.
  intros HC Hplan Hk. destruct s as [db rc o].
  destruct (frames_of (Z.to_nat C) header recs) as [|first rest] eqn:Hfr;
    [simpl in Hk; lia|].
  assert (Hrun : process_file fl C (CsvFile file (header :: recs)) (State db rc o) =
    (handler_result fl,
     State (append_rows (table_name_of file) (rows first) db) (Some (Connection [] true))
       (o ++ pre_events (CsvFile file (header :: recs)) ++
          PbarOpen file (Z.of_nat (length (header :: recs)) - 1) ::
          insert_events file (table_name_of file) first ++
          RawConnect :: copy_events (table_name_of file) (take (k - 1) rest) ++
          handler_events fl file (Fault msg) ++
          [Close; Print (ConnClosed file); PbarClose]))).
  { rewrite (process_file_upload fl C _ header recs);
      [|apply Hplan|done|apply Hplan|done
       |apply (frames_of_data_lines (Z.to_nat C)); by rewrite Hfr].
    cbn [flines fname]. rewrite Hfr.
    rewrite (upload_copy_fault fl file _ _ first rest k msg) by (done || simpl in Hk; lia).
    by rewrite <- !app_assoc. }
  exists first, rest. eexists. eexists. split; [done|]. rewrite Hrun.
  split; [reflexivity|]. cbn [out tables fst snd]. split; [reflexivity|].
  split; [count_norm|]. split.
  { unfold handler_events. destruct (rollback_fault fl); transfers_norm;
      by rewrite !app_nil_r. }
  split; [done|]. unfold handler_result. split.
  - intros Hrb. rewrite Hrb. split; [unfold handler_events; rewrite Hrb; count_norm|].
    split; [done|]. intros plan more Hfile. rewrite for_files_cons. cbn [fname].
    rewrite Hfile, Hrun. unfold handler_result. by rewrite Hrb.
  - intros m Hrb. by rewrite Hrb.
Qed.

Lemma bulk_copy_failure_rolls_back_witness :
  1 ≤ 2 ∧ copy_raises_at (copy_fails_at 2 "boom") 2 "boom" ∧
  (1 ≤ 2 < length (frames_of (Z.to_nat 2) "id,amt"
                     ["1,10"; "2,20"; "3,30"; "4,40"; "5,50"]))%nat ∧
  ∃ s',
    process_file (copy_fails_at 2 "boom") 2
      (CsvFile "sales.csv" ["id,amt"; "1,10"; "2,20"; "3,30"; "4,40"; "5,50"])
      (initial ∅) = (Ret Next, s') ∧
    tables s' = append_rows "sales" ["1,10"; "2,20"] ∅.
Proof.
  assert (Hplan : copy_raises_at (copy_fails_at 2 "boom") 2 "boom").
  { unfold copy_raises_at, copy_fails_at. cbn. repeat split; try done.
    intros j Hj. destruct (Nat.eqb_spec j 2); [lia|done]. }
  assert (Hk : (1 ≤ 2 < length (frames_of (Z.to_nat 2) "id,amt"
                     ["1,10"; "2,20"; "3,30"; "4,40"; "5,50"]))%nat)
    by (vm_compute; lia).
  split; [lia|]. split; [exact Hplan|]. split; [exact Hk|].
  destruct (bulk_copy_failure_rolls_back (copy_fails_at 2 "boom") "sales.csv" "id,amt"
              ["1,10"; "2,20"; "3,30"; "4,40"; "5,50"] 2 2 "boom" (initial ∅))
    as (first & rest & s' & evs & Hfr & Hs & _ & _ & _ & Htab & Hok & _);
    [lia|exact Hplan|exact Hk|].
  destruct (Hok eq_refl) as (_ & Hret & _).
  exists s'. split.
  - rewrite <- Hs, <- Hret. by destruct (process_file _ _ _ _).
  - vm_compute in Hfr. injection Hfr as <- _. exact Htab.
Defined.

(** C2, as stated, fails when the rollback raises as well, as it does on a
    connection that was lost during the copy: the exception of the rollback
    leaves the handler, the connection is closed by the [finally], and the
    exception leaves [load_data_fast] before the next file is started. *)
Lemma rollback_failure_aborts_run :
  load_data_fast
    [CsvFile "sales.csv" ["id,amt"; "1,10"; "2,20"; "3,30"];
     CsvFile "more.csv" ["id"; "7"]]
    (λ name, if bool_decide (name = "sales.csv")
             then Faults None (λ _, None) None None None
                         (λ j, if (j =? 1)%nat then Some "connection lost" else None)
                         None (Some "connection already closed")
             else no_faults)
    2 (initial ∅) =
  (Exc (Fault "connection already closed"),
   State {["sales" := ["1,10"; "2,20"]]} (Some (Connection [] true))
     [Print Checking; Print (FoundFiles ["sales.csv"; "more.csv"]);
      Print (Starting "sales.csv"); Print (PreCounting "sales.csv");
      FileRead "sales.csv" 4; Print (FoundRows 3); PbarOpen "sales.csv" 3;
      Print (InsertingFirst "sales.csv");
      ToSql "sales" (Chunk "id,amt" ["1,10"; "2,20"]); PbarUpdate 2;
      Print FirstInserted; Print Switching; RawConnect;
      LogErrorUploading "sales.csv" (Fault "connection lost");
      Close; Print (ConnClosed "sales.csv"); PbarClose]).
Proof. vm_compute. reflexivity. Qed.

(** ** Files without records *)

(** The reader of a file always has a first frame to give: the handler of
    [StopIteration] is not reached, and no file is skipped with a warning. *)
Lemma warning_never_logged fl C f s file :
  count (LogWarningEmpty file) (out (process_file fl C f s).2) =
  count (LogWarningEmpty file) (out s).
Proof.
  destruct s as [db rc o]. cbn [out]. rewrite process_file_run.
  destruct (open_fault fl); cbn [snd out]; [count_norm|].
  destruct (C <? 1); [cbn [snd out]; count_norm|].
  destruct (read_csv_fault fl); [cbn [snd out]; count_norm|].
  destruct (flines f) as [|header recs]; [cbn [snd out]; count_norm|].
  destruct (data_lines (header :: recs)) as [|h rs] eqn:Hd; [cbn [snd out]; count_norm|].
  destruct (upload_paths fl (fname f) (table_name_of (fname f))
              (frames_of (Z.to_nat C) header recs) 0)
    as (r & copies & conn & evs & Hpath & Hrun).
  rewrite Hrun. cbn [snd out].
  inversion Hpath as [| Hnil | | | |]; subst;
    try (by destruct (frames_of_nonempty (Z.to_nat C) header recs); rewrite ?Hd);
    count_norm.
Qed.

(** Lines 92-94 themselves do what they say: a reader that has nothing to give
    at the first read makes the body log the warning and [continue], the
    database untouched and no connection opened. *)
Lemma exhausted_reader_is_skipped fl file t total k db rc o :
  next_fault fl k = None →
  upload fl file t total (Reader [] k) (State db rc o) =
  (Ret Continue,
   State db None (o ++ [PbarOpen file total; LogWarningEmpty file; PbarClose])).
Proof. intros Hnext. run_step. rewrite Hnext. tidy. Qed.

(** A file that holds its header and no record is loaded like any other: its
    one frame, without rows, goes through [to_sql], which creates the table. *)
Lemma header_only_file_is_loaded file header C db rc o :
  1 ≤ C → is_blank header = false →
  process_file no_faults C (CsvFile file [header]) (State db rc o) =
  (Ret Next,
   State (append_rows (table_name_of file) [] db) (Some (Connection [] true))
     (o ++ [Print (Starting file); Print (PreCounting file); FileRead file 1;
            Print (FoundRows 0); PbarOpen file 0; Print (InsertingFirst file);
            ToSql (table_name_of file) (Chunk header []); PbarUpdate 0;
            Print FirstInserted; Print Switching; RawConnect; Commit;
            LogInfoIngested file; Close; Print (ConnClosed file); PbarClose])).
Proof.
  intros HC Hh.
  assert (Hd : data_lines [header] = [header]) by (apply data_lines_all; by constructor).
  rewrite (process_file_upload _ _ _ header []); try done; [|by rewrite Hd].
  unfold frames_of. rewrite Hd. cbn [flines fname chunks chunked length].
  rewrite upload_ok by apply no_faults_fault_free.
  unfold pre_events, insert_events. cbn [flines fname length].
  by list_norm.
Qed.

(** A file without any line stops the run of the body at [pd.read_csv]. *)
Lemma empty_file_raises fl file C db rc o :
  open_fault fl = None → read_csv_fault fl = None → 1 ≤ C →
  process_file fl C (CsvFile file []) (State db rc o) =
  (Exc EmptyDataError,
   State db rc
     (o ++ [Print (Starting file); Print (PreCounting file); FileRead file 0;
            Print (FoundRows (-1))])).
Proof.
  intros Hopen Hrcsv HC. rewrite process_file_run, Hopen, Hrcsv.
  by destruct (Z.ltb_spec C 1); [lia|].
Qed.

(** So does a file of blank lines only. *)
Lemma blank_file_raises fl C f db rc o :
  open_fault fl = None → read_csv_fault fl = None → 1 ≤ C →
  data_lines (flines f) = [] →
  process_file fl C f (State db rc o) =
  (Exc EmptyDataError, State db rc (o ++ pre_events f)).
Proof.
  intros Hopen Hrcsv HC Hd. rewrite process_file_run, Hopen, Hrcsv.
  destruct (Z.ltb_spec C 1); [lia|].
  destruct (flines f) as [|header recs]; [done|]. by rewrite Hd.
Qed.

(** C4, at a directory with a file that holds its header line and nothing
    else, followed by a file without any line. The first frame of the first
    file is the empty one: [to_sql] runs and creates the table, the raw
    connection is opened and committed, the file is logged as ingested, and no
    warning is logged. For the second file [pd.read_csv] raises before the
    [try]: no warning either, and the exception leaves the run. *)
Theorem files_without_records_are_not_skipped :
  load_data_fast [CsvFile "empty.csv" ["id,name"]; CsvFile "zero.csv" []]
    (λ _, no_faults) 100000 (initial ∅) =
  (Exc EmptyDataError,
   State {["empty" := []]} (Some (Connection [] true))
     [Print Checking; Print (FoundFiles ["empty.csv"; "zero.csv"]);
      Print (Starting "empty.csv"); Print (PreCounting "empty.csv");
      FileRead "empty.csv" 1; Print (FoundRows 0); PbarOpen "empty.csv" 0;
      Print (InsertingFirst "empty.csv"); ToSql "empty" (Chunk "id,name" []);
      PbarUpdate 0; Print FirstInserted; Print Switching; RawConnect; Commit;
      LogInfoIngested "empty.csv"; Close; Print (ConnClosed "empty.csv");
      PbarClose;
      Print (Starting "zero.csv"); Print (PreCounting "zero.csv");
      FileRead "zero.csv" 0; Print (FoundRows (-1))]).
Proof. vm_compute. reflexivity. Qed.

(** C10, at a file without any line, listed before a good one: the count of
    rows is [-1]; then [pd.read_csv] raises [EmptyDataError] before the [try]
    is entered, nothing handles it, no warning is logged, and the run stops
    there, the next file untouched and no summary printed. *)
Theorem empty_file_aborts_run :
  load_data_fast [CsvFile "zero.csv" []; CsvFile "sales.csv" ["id,amt"; "1,10"]]
    (λ _, no_faults) 100000 (initial ∅) =
  (Exc EmptyDataError,
   State ∅ None
     [Print Checking; Print (FoundFiles ["zero.csv"; "sales.csv"]);
      Print (Starting "zero.csv"); Print (PreCounting "zero.csv");
      FileRead "zero.csv" 0; Print (FoundRows (-1))]).
Proof. vm_compute. reflexivity. Qed.

(** ** Every way through the body of the loop *)

(** Either an exception leaves the body before the [try] is entered, the
    database and [raw_conn] as they were; or the count and [pd.read_csv] go
    through (the chunk size is valid and the file has a line that is not
    blank), and lines 60-102 run along one of the paths of [upload_path]. The
    outcome does not depend on the state the body starts in. *)
Lemma process_file_paths fl C f :
  (∃ e pre,
     (pre = [Print (Starting (fname f)); Print (PreCounting (fname f))] ∧
      is_Some (open_fault fl) ∨
      pre = pre_events f ∧ open_fault fl = None ∧
      (C < 1 ∨ is_Some (read_csv_fault fl) ∨ data_lines (flines f) = [])) ∧
     ∀ db rc o,
       process_file fl C f (State db rc o) = (Exc e, State db rc (o ++ pre))) ∨
  (∃ header recs r copies conn evs,
     flines f = header :: recs ∧
     (open_fault fl = None ∧ read_csv_fault fl = None ∧
      data_lines (header :: recs) ≠ []) ∧
     1 ≤ C ∧
     upload_path fl (fname f) (table_name_of (fname f))
       (frames_of (Z.to_nat C) header recs) r copies conn evs ∧
     ∀ db rc o,
       process_file fl C f (State db rc o) =
       (r, State (apply_copies copies db) conn
             (o ++ pre_events f ++
              PbarOpen (fname f) (Z.of_nat (length (flines f)) - 1) ::
              evs ++ [PbarClose]))).
Proof.
  destruct (open_fault fl) as [m|] eqn:Hopen.
  { left. exists (Fault m), [Print (Starting (fname f)); Print (PreCounting (fname f))].
    split; [left; eauto|].
    intros. by rewrite process_file_run, Hopen. }
  destruct (Z.ltb_spec C 1) as [Hlt|Hge].
  { left. exists ValueError, (pre_events f). split; [right; eauto|]. intros.
    rewrite process_file_run, Hopen. by destruct (Z.ltb_spec C 1); [|lia]. }
  destruct (read_csv_fault fl) as [m|] eqn:Hrcsv.
  { left. exists (Fault m), (pre_events f). split; [right; eauto|]. intros.
    rewrite process_file_run, Hopen, Hrcsv. by destruct (Z.ltb_spec C 1); [lia|]. }
  destruct (data_lines (flines f)) as [|h rs] eqn:Hd.
  { left. exists EmptyDataError, (pre_events f). split; [right; eauto|]. intros.
    by apply blank_file_raises. }
  destruct (flines f) as [|header recs] eqn:Hlines; [done|].
  right.
  destruct (upload_paths fl (fname f) (table_name_of (fname f))
              (frames_of (Z.to_nat C) header recs) 0)
    as (r & copies & conn & evs & Hpath & Hrun).
  exists header, recs, r, copies, conn, evs.
  split; [done|]. split; [by rewrite Hd|]. split; [done|]. split; [done|].
  intros. rewrite (process_file_upload _ _ _ header recs) by (done || by rewrite Hd).
  rewrite Hrun, Hlines. by rewrite <- !app_assoc.
Qed.

(** The output only grows. *)
Lemma process_file_out fl C f s :
  ∃ evs, out (process_file fl C f s).2 = out s ++ evs.
Proof.
  destruct s as [db rc o].
  destruct (process_file_paths fl C f)
    as [(e & pre & _ & Hrun)|(h & recs & r & cs & conn & evs & _ & _ & _ & _ & Hrun)];
    rewrite Hrun; eauto.
Qed.

Lemma for_files_out plan C : ∀ files s,
  ∃ evs, out (for_files plan C files s).2 = out s ++ evs.
Proof.
  induction files as [|f files IH]; intros s.
  - exists []. by rewrite app_nil_r.
  - rewrite for_files_cons.
    destruct (process_file_out (plan (fname f)) C f s) as [evs1 Hout1].
    destruct (process_file (plan (fname f)) C f s) as [[fw|e] s1]; cbn [snd] in *.
    + destruct (IH s1) as [evs2 Hout2]. exists (evs1 ++ evs2).
      by rewrite Hout2, Hout1, app_assoc.
    + eauto.
Qed.

(** What the loop prints for the later files comes after the events of the
    first one. *)
Lemma for_files_after plan C f more s :
  ∃ later,
    out (for_files plan C (f :: more) s).2 =
    out (process_file (plan (fname f)) C f s).2 ++ later.
Proof.
  rewrite for_files_cons.
  destruct (process_file (plan (fname f)) C f s) as [[fw|e] s1]; cbn [snd].
  - apply for_files_out.
  - exists []. by rewrite app_nil_r.
Qed.

(** ** The raw connection *)

(** C6. Whatever the plan and the state, the events of one file are of one of
    two kinds: no raw connection is opened and none is closed; or one is
    opened, closed after that, neither happens a second time, and the
    connection the body leaves behind is closed with nothing pending. These
    events come before anything the loop does for the later files. *)
Theorem raw_connection_closed_exactly_once (fl : faults) (C : Z) (f : csv_file)
    (s : state) :
  ∃ evs,
    out (process_file fl C f s).2 = out s ++ evs ∧
    ((count RawConnect evs = 0%nat ∧ count Close evs = 0%nat) ∨
     (∃ pre mid post,
        evs = pre ++ RawConnect :: mid ++ Close :: post ∧
        count RawConnect (pre ++ mid ++ post) = 0%nat ∧
        count Close (pre ++ mid ++ post) = 0%nat ∧
        raw_conn (process_file fl C f s).2 = Some (Connection [] true))) ∧
    ∀ plan more,
      plan (fname f) = fl →
      ∃ later, out (for_files plan C (f :: more) s).2 = out s ++ evs ++ later.
Proof.
  assert (Hfile : ∃ evs,
    out (process_file fl C f s).2 = out s ++ evs ∧
    ((count RawConnect evs = 0%nat ∧ count Close evs = 0%nat) ∨
     (∃ pre mid post,
        evs = pre ++ RawConnect :: mid ++ Close :: post ∧
        count RawConnect (pre ++ mid ++ post) = 0%nat ∧
        count Close (pre ++ mid ++ post) = 0%nat ∧
        raw_conn (process_file fl C f s).2 = Some (Connection [] true)))).
  { destruct s as [db rc o].
    destruct (process_file_paths fl C f)
      as [(e & pre & Hpre & Hrun)
         |(h & recs & r & cs & conn & evs & Hl & Ho & HC & Hpath & Hrun)];
      rewrite Hrun; cbn [snd out raw_conn]; eexists; (split; [reflexivity|]).
    { left. destruct Hpre as [[-> _]|[-> _]]; split; count_norm. }
    inversion Hpath; subst.
    - left. split; count_norm.
    - left. split; count_norm.
    - left. split; count_norm.
    - left. split; count_norm.
    - right.
      exists (pre_events f ++ PbarOpen (fname f) (Z.of_nat (length (flines f)) - 1) ::
              insert_events (fname f) (table_name_of (fname f)) c),
             (copy_events (table_name_of (fname f)) (take n rest) ++
              handler_events fl (fname f) (Fault msg)),
             [Print (ConnClosed (fname f)); PbarClose].
      split; [list_norm|]. repeat split; count_norm.
    - right.
      exists (pre_events f ++ PbarOpen (fname f) (Z.of_nat (length (flines f)) - 1) ::
              insert_events (fname f) (table_name_of (fname f)) c),
             (copy_events (table_name_of (fname f)) rest ++
              [Commit; LogInfoIngested (fname f)]),
             [Print (ConnClosed (fname f)); PbarClose].
      split; [list_norm|]. repeat split; count_norm. }
  destruct Hfile as (evs & Hout & Hkind). exists evs. split; [exact Hout|].
  split; [exact Hkind|]. intros plan more <-.
  destruct (for_files_after plan C f more s) as [later Hlater].
  exists later. by rewrite Hlater, Hout, app_assoc.
Qed.

(** C9. A file whose first chunk was inserted and whose load then failed
    (the error was logged): no commit was made; the database is the one before
    the file with the rows of the first chunk appended to the target table,
    which therefore exists; and when a raw connection was opened and its
    rollback returns, that transaction was rolled back once. *)
Theorem first_chunk_survives_bulk_failure (fl : faults) (C : Z) (f : csv_file)
    (s : state) (evs : list event) (c : chunk) (e : exn) :
  out (process_file fl C f s).2 = out s ++ evs →
  ToSql (table_name_of (fname f)) c ∈ evs →
  LogErrorUploading (fname f) e ∈ evs →
  tables (process_file fl C f s).2 =
    append_rows (table_name_of (fname f)) (rows c) (tables s) ∧
  table_rows (tables (process_file fl C f s).2) (table_name_of (fname f)) =
    table_rows (tables s) (table_name_of (fname f)) ++ rows c ∧
  is_Some (tables (process_file fl C f s).2 !! table_name_of (fname f)) ∧
  count Commit evs = 0%nat ∧
  (count RawConnect evs = 1%nat → rollback_fault fl = None →
   count Rollback evs = 1%nat).
Proof.
  destruct s as [db rc o]. cbn [out tables].
  assert (Hgoal : ∀ c0,
    ToSql (table_name_of (fname f)) c ∈ [ToSql (table_name_of (fname f)) c0] →
    append_rows (table_name_of (fname f)) (rows c0) db =
      append_rows (table_name_of (fname f)) (rows c) db ∧
    table_rows (append_rows (table_name_of (fname f)) (rows c0) db)
      (table_name_of (fname f)) = table_rows db (table_name_of (fname f)) ++ rows c ∧
    is_Some (append_rows (table_name_of (fname f)) (rows c0) db
               !! table_name_of (fname f))).
  { intros c0 Hin. apply list_elem_of_singleton in Hin. injection Hin as <-.
    split; [done|]. split.
    - by rewrite table_rows_append_rows, bool_decide_eq_true_2.
    - unfold append_rows. rewrite lookup_insert_eq. eauto. }
  destruct (process_file_paths fl C f)
    as [(e' & pre & Hpre & Hrun)|(h & recs & r & cs & conn & evs' & Hl & Ho & HC & Hpath & Hrun)];
    rewrite Hrun; cbn [snd out tables]; intros Hevs%app_inv_head; subst evs;
    rewrite !elem_of_count.
  { destruct Hpre as [[-> _]|[-> _]]; count_norm. }
  inversion Hpath; subst; try (count_norm; fail).
  - (* the raw connection could not be opened *)
    intros Hsql _. cbn [apply_copies foldl].
    assert (Hin : ToSql (table_name_of (fname f)) c ∈
                  [ToSql (table_name_of (fname f)) c0]).
    { apply elem_of_count. revert Hsql. count_norm. }
    destruct (Hgoal c0 Hin) as (-> & ? & ?). repeat split; try done; count_norm.
  - (* the bulk phase failed *)
    intros Hsql _. cbn [apply_copies foldl].
    assert (Hin : ToSql (table_name_of (fname f)) c ∈
                  [ToSql (table_name_of (fname f)) c0]).
    { apply elem_of_count. revert Hsql. count_norm. }
    destruct (Hgoal c0 Hin) as (-> & ? & ?). repeat split; try done.
    + count_norm.
    + intros _ Hrb. unfold handler_events. rewrite Hrb. count_norm.
Qed.

Lemma first_chunk_survives_bulk_failure_witness :
  ∃ evs,
    out (process_file (copy_fails_at 2 "boom") 2
           (CsvFile "sales.csv" ["id,amt"; "1,10"; "2,20"; "3,30"; "4,40"; "5,50"])
           (initial ∅)).2 = out (initial ∅) ++ evs ∧
    ToSql "sales" (Chunk "id,amt" ["1,10"; "2,20"]) ∈ evs ∧
    LogErrorUploading "sales.csv" (Fault "boom") ∈ evs ∧
    tables (process_file (copy_fails_at 2 "boom") 2
              (CsvFile "sales.csv" ["id,amt"; "1,10"; "2,20"; "3,30"; "4,40"; "5,50"])
              (initial ∅)).2 = append_rows "sales" ["1,10"; "2,20"] ∅ ∧
    count Commit evs = 0%nat.
Proof.
  pose proof (first_chunk_survives_bulk_failure (copy_fails_at 2 "boom") 2
    (CsvFile "sales.csv" ["id,amt"; "1,10"; "2,20"; "3,30"; "4,40"; "5,50"])
    (initial ∅)
    (out (process_file (copy_fails_at 2 "boom") 2
           (CsvFile "sales.csv" ["id,amt"; "1,10"; "2,20"; "3,30"; "4,40"; "5,50"])
           (initial ∅)).2)
    (Chunk "id,amt" ["1,10"; "2,20"]) (Fault "boom")) as H.
  assert (H1 : ToSql "sales" (Chunk "id,amt" ["1,10"; "2,20"]) ∈
    out (process_file (copy_fails_at 2 "boom") 2
           (CsvFile "sales.csv" ["id,amt"; "1,10"; "2,20"; "3,30"; "4,40"; "5,50"])
           (initial ∅)).2) by (apply elem_of_count; vm_compute; lia).
  assert (H2 : LogErrorUploading "sales.csv" (Fault "boom") ∈
    out (process_file (copy_fails_at 2 "boom") 2
           (CsvFile "sales.csv" ["id,amt"; "1,10"; "2,20"; "3,30"; "4,40"; "5,50"])
           (initial ∅)).2) by (apply elem_of_count; vm_compute; lia).
  specialize (H eq_refl H1 H2). destruct H as (Htab & _ & _ & Hcommit & _).
  exists (out (process_file (copy_fails_at 2 "boom") 2
           (CsvFile "sales.csv" ["id,amt"; "1,10"; "2,20"; "3,30"; "4,40"; "5,50"])
           (initial ∅)).2).
  split; [exact eq_refl|]. split; [exact H1|]. split; [exact H2|].
  split; [exact Htab|exact Hcommit].
Defined.
(** ** Containment of failures *)

(** When the steps before the [try] go through for a file (the file can be
    read for the count, the chunk size is valid, [pd.read_csv] builds its
    parser and finds a line that is not blank) and the rollback of the handler
    returns, the body of the loop returns, whatever else is raised. *)
Lemma process_file_returns fl C f s :
  1 ≤ C → open_fault fl = None → read_csv_fault fl = None →
  data_lines (flines f) ≠ [] → rollback_fault fl = None →
  ∃ fw s' evs,
    process_file fl C f s = (Ret fw, s') ∧
    out s' = out s ++ Print (Starting (fname f)) :: evs.
Proof.
  intros HC Hopen Hrcsv Hlines Hrb. destruct s as [db rc o].
  destruct (process_file_paths fl C f)
    as [(e & pre & Hwhy & _)|(h & recs & r & cs & conn & evs & Hl & Ho & _ & Hpath & Hrun)].
  - rewrite Hopen, Hrcsv in Hwhy.
    destruct Hwhy as [[_ [? [=]]]|(_ & _ & [?|[[? [=]]|?]])]; [lia|done].
  - rewrite Hrun. cbn [out].
    assert (Hr : ∃ fw, r = Ret fw).
    { inversion Hpath; subst; eauto. unfold handler_result. rewrite Hrb. eauto. }
    destruct Hr as [fw ->]. exists fw. eexists. eexists. split; [reflexivity|].
    cbn [out]. unfold pre_events. cbn [app]. reflexivity.
Qed.

Lemma for_files_returns plan C : ∀ files s,
  1 ≤ C →
  (∀ f, f ∈ files →
        open_fault (plan (fname f)) = None ∧
        read_csv_fault (plan (fname f)) = None ∧
        data_lines (flines f) ≠ [] ∧
        rollback_fault (plan (fname f)) = None) →
  ∃ s' evs,
    for_files plan C files s = (Ret tt, s') ∧
    out s' = out s ++ evs ∧
    ∀ f, f ∈ files → Print (Starting (fname f)) ∈ evs.
Proof.
  induction files as [|f files IH]; intros s HC Hok.
  - exists s, []. split; [done|]. split; [by rewrite app_nil_r|].
    by intros f ?%elem_of_nil.
  - destruct (Hok f) as (Hopen & Hrcsv & Hlines & Hrb); [left|].
    destruct (process_file_returns (plan (fname f)) C f s HC Hopen Hrcsv Hlines Hrb)
      as (fw & s1 & evs1 & Hrun & Hout).
    destruct (IH s1 HC) as (s' & evs & Hrest & Hout' & Hstarted).
    { intros g Hg. apply Hok. by right. }
    exists s', (Print (Starting (fname f)) :: evs1 ++ evs).
    rewrite for_files_cons, Hrun. split; [done|]. split.
    + rewrite Hout', Hout. by list_norm.
    + intros g [->|Hg]%elem_of_cons; [left|].
      right. apply elem_of_app. right. by apply Hstarted.
Qed.

Lemma load_data_fast_run data_path plan C db rc o :
  load_data_fast data_path plan C (State db rc o) =
  match list_csv_files data_path with
  | [] =>
      (Ret tt,
       State db rc (o ++ [Print Checking; Print (FoundFiles []); Print NoCsvFiles]))
  | _ =>
      match for_files plan C (list_csv_files data_path)
              (State db rc
                 (o ++ [Print Checking;
                        Print (FoundFiles (map fname (list_csv_files data_path)))]))
      with
      | (Ret _, s1) =>
          (Ret tt,
           State (tables s1) (raw_conn s1)
                 (out s1 ++ [LogInfoCompleted; Print AllProcessed]))
      | (Exc e, s1) => (Exc e, s1)
      end
  end.
Proof.
  unfold load_data_fast, print, emit, bind. cbn [tables raw_conn out].
  destruct (list_csv_files data_path) as [|f0 files];
    cbn [tables raw_conn out]; rewrite <- ?app_assoc; cbn [app].
  - reflexivity.
  - destruct (for_files plan C (f0 :: files) _) as [[[]|e] s1]; [|reflexivity].
    by rewrite <- app_assoc.
Qed.

(** C3, as amended. When for every selected file the steps before the [try]
    go through (the count of line 53 and [pd.read_csv] of line 56 raise
    nothing: the chunk size is valid, the parser is built and finds a line
    that is not blank) and the rollback called by the handler returns, every
    exception raised for a file (by the first read, the insert, the opening of
    the raw connection or its cursor, a later read, a bulk copy, the commit)
    is contained: the run returns, every selected file was started, and the
    last thing printed is the final summary. *)
Theorem failures_inside_try_are_contained (data_path : list csv_file)
    (plan : string → faults) (C : Z) (s : state) :
  1 ≤ C →
  (∀ f, f ∈ list_csv_files data_path →
        open_fault (plan (fname f)) = None ∧
        read_csv_fault (plan (fname f)) = None ∧
        data_lines (flines f) ≠ [] ∧
        rollback_fault (plan (fname f)) = None) →
  list_csv_files data_path ≠ [] →
  ∃ s' evs,
    load_data_fast data_path plan C s = (Ret tt, s') ∧
    out s' = out s ++ evs ∧
    (∀ f, f ∈ list_csv_files data_path → Print (Starting (fname f)) ∈ evs) ∧
    last evs = Some (Print AllProcessed).
Proof.
  intros HC Hok Hne. destruct s as [db rc o]. rewrite load_data_fast_run.
  destruct (for_files_returns plan C (list_csv_files data_path)
              (State db rc
                 (o ++ [Print Checking;
                        Print (FoundFiles (map fname (list_csv_files data_path)))]))
              HC Hok)
    as (s1 & evs & Hrun & Hout & Hstarted).
  rewrite Hrun. destruct (list_csv_files data_path) as [|f0 files] eqn:Hfiles; [done|].
  eexists. exists ([Print Checking; Print (FoundFiles (map fname (f0 :: files)))] ++
            evs ++ [LogInfoCompleted; Print AllProcessed]).
  split; [reflexivity|]. cbn [out]. split; [|split].
  - rewrite Hout. cbn [out]. by list_norm.
  - intros f Hf. apply elem_of_app. right. apply elem_of_app. left. by apply Hstarted.
  - change [LogInfoCompleted; Print AllProcessed]
      with ([LogInfoCompleted] ++ [Print AllProcessed]).
    rewrite !app_assoc. apply last_snoc.
Qed.

Lemma failures_inside_try_are_contained_witness :
  let dir := [CsvFile "sales.csv" ["id,amt"; "1,10"; "2,20"; "3,30"];
              CsvFile "notes.txt" ["hello"];
              CsvFile "more.csv" ["id"; "7"]] in
  let plan := λ name : string,
    if bool_decide (name = "sales.csv") then copy_fails_at 1 "boom" else no_faults in
  1 ≤ 1 ∧
  (∀ f, f ∈ list_csv_files dir →
        open_fault (plan (fname f)) = None ∧
        read_csv_fault (plan (fname f)) = None ∧
        data_lines (flines f) ≠ [] ∧
        rollback_fault (plan (fname f)) = None) ∧
  list_csv_files dir ≠ [] ∧
  ∃ s' evs,
    load_data_fast dir plan 1 (initial ∅) = (Ret tt, s') ∧
    out s' = evs ∧
    LogErrorUploading "sales.csv" (Fault "boom") ∈ evs ∧
    Print (Starting "more.csv") ∈ evs ∧
    last evs = Some (Print AllProcessed).
Proof.
  intros dir plan.
  assert (Hok : ∀ f, f ∈ list_csv_files dir →
        open_fault (plan (fname f)) = None ∧
        read_csv_fault (plan (fname f)) = None ∧
        data_lines (flines f) ≠ [] ∧
        rollback_fault (plan (fname f)) = None).
  { intros f Hf. vm_compute in Hf.
    apply elem_of_cons in Hf as [->|Hf]; [by vm_compute|].
    apply elem_of_cons in Hf as [->|Hf]; [by vm_compute|].
    by apply elem_of_nil in Hf. }
  assert (Hne : list_csv_files dir ≠ []) by (vm_compute; discriminate).
  split; [lia|]. split; [exact Hok|]. split; [exact Hne|].
  destruct (failures_inside_try_are_contained dir plan 1 (initial ∅))
    as (s' & evs & Hrun & Hout & Hstarted & Hlast); [lia|exact Hok|exact Hne|].
  exists s', evs. split; [exact Hrun|]. split; [exact Hout|].
  split; [|split; [|exact Hlast]].
  - assert (Hevs : evs = out (load_data_fast dir plan 1 (initial ∅)).2)
      by (rewrite Hrun; symmetry; exact Hout).
    rewrite Hevs. apply elem_of_count. vm_compute. lia.
  - apply (Hstarted (CsvFile "more.csv" ["id"; "7"])).
    vm_compute. right. left.
Defined.

(** C3, as stated, fails when the exception is raised before the [try]:
    here the first file cannot be decoded while its lines are counted (line
    53). The exception leaves [load_data_fast]; the second file is never
    started and no summary is printed. *)
Lemma precount_failure_aborts_run :
  load_data_fast
    [CsvFile "latin1.csv" ["id,name"; "1,x"]; CsvFile "sales.csv" ["id,amt"; "1,10"]]
    (λ name, if bool_decide (name = "latin1.csv")
             then Faults (Some "UnicodeDecodeError") (λ _, None) None None None
                         (λ _, None) None None
             else no_faults)
    100000 (initial ∅) =
  (Exc (Fault "UnicodeDecodeError"),
   State ∅ None
     [Print Checking; Print (FoundFiles ["latin1.csv"; "sales.csv"]);
      Print (Starting "latin1.csv"); Print (PreCounting "latin1.csv")]).
Proof. vm_compute. reflexivity. Qed.

(** ** The pre-count *)

(** C7, as amended. When the counting pass of line 53 goes through: the body
    first prints two lines, reads the file in one full pass and prints the
    count, before anything else (no transfer comes earlier, and the file is
    not read for counting again); when [pd.read_csv] goes through as well, the
    next event is the opening of the progress bar with the line count minus
    one as its total, the only bar of the file, closed at the end; the rest of
    the body is [upload] at that total, the count going nowhere else; and
    [upload] at any other total has the same result and leaves the same
    database, the same connection and the same events but for the total of
    the progress bar. *)
Theorem precount_feeds_progress_only (fl : faults) (C : Z) (f : csv_file)
    (s : state) :
  open_fault fl = None →
  (∃ evs,
     out (process_file fl C f s).2 = out s ++ pre_events f ++ evs ∧
     transfers (pre_events f) = [] ∧
     count (FileRead (fname f) (length (flines f))) (pre_events f) = 1%nat ∧
     (∀ file n, count (FileRead file n) evs = 0%nat) ∧
     (1 ≤ C → read_csv_fault fl = None → data_lines (flines f) ≠ [] →
      ∃ body,
        evs = PbarOpen (fname f) (Z.of_nat (length (flines f)) - 1) ::
              body ++ [PbarClose] ∧
        ∀ file total, count (PbarOpen file total) body = 0%nat) ∧
     (∀ file total, PbarOpen file total ∈ evs →
        file = fname f ∧ total = Z.of_nat (length (flines f)) - 1)) ∧
  (∀ header recs,
     flines f = header :: recs → 1 ≤ C → read_csv_fault fl = None →
     data_lines (header :: recs) ≠ [] →
     process_file fl C f s =
     upload fl (fname f) (table_name_of (fname f))
       (Z.of_nat (length (flines f)) - 1)
       (Reader (frames_of (Z.to_nat C) header recs) 0)
       (State (tables s) (raw_conn s) (out s ++ pre_events f))) ∧
  (∀ file t total total' r0 s0,
     (upload fl file t total r0 s0).1 = (upload fl file t total' r0 s0).1 ∧
     tables (upload fl file t total r0 s0).2 = tables (upload fl file t total' r0 s0).2 ∧
     raw_conn (upload fl file t total r0 s0).2 =
       raw_conn (upload fl file t total' r0 s0).2 ∧
     map (with_total 0) (out (upload fl file t total r0 s0).2) =
       map (with_total 0) (out (upload fl file t total' r0 s0).2)).
Proof.
  intros Hopen. destruct s as [db rc o]. cbn [tables raw_conn out]. split; [|split].
  - destruct (process_file_paths fl C f)
      as [(e & pre & Hpre & Hrun)
         |(h & recs & r & cs & conn & evs & Hl & _ & HC & Hpath & Hrun)];
      rewrite Hrun; cbn [snd out].
    + destruct Hpre as [[_ [? Hsome]]|(-> & _ & Hwhy)]; [congruence|].
      exists []. rewrite app_nil_r. split; [done|]. split; [done|].
      split; [count_norm|]. split; [done|]. split; [|by intros ? ? ?%elem_of_nil].
      intros HC Hrcsv Hd. rewrite Hrcsv in Hwhy.
      destruct Hwhy as [?|[[? [=]]|?]]; [lia|done].
    + eexists. split; [reflexivity|]. split; [done|]. split; [count_norm|]. split.
      * intros file n. inversion Hpath; subst; count_norm.
      * split.
        -- intros _ _ _. exists evs. split; [done|].
           intros file total. inversion Hpath; subst; count_norm.
        -- intros file total. rewrite elem_of_count.
           inversion Hpath; subst; count_norm;
             case_bool_decide as Heq; try (intros; lia);
             by injection Heq as <- <-.
  - intros header recs Hl HC Hrcsv Hd. by apply process_file_upload.
  - intros file t total total' [frames k] [db0 rc0 o0].
    destruct (upload_paths fl file t frames k) as (r & cs & conn & evs & _ & Hrun).
    rewrite !Hrun. cbn [fst snd tables raw_conn out]. repeat split.
    by rewrite !map_app.
Qed.

Lemma precount_feeds_progress_only_witness :
  open_fault no_faults = None ∧
  ∃ evs body,
    out (process_file no_faults 2
           (CsvFile "sales.csv" ["id,amt"; "1,10"; "2,20"; "3,30"]) (initial ∅)).2 =
      out (initial ∅) ++
      pre_events (CsvFile "sales.csv" ["id,amt"; "1,10"; "2,20"; "3,30"]) ++ evs ∧
    evs = PbarOpen "sales.csv" 3 :: body ++ [PbarClose].
Proof.
  split; [reflexivity|].
  destruct (precount_feeds_progress_only no_faults 2
              (CsvFile "sales.csv" ["id,amt"; "1,10"; "2,20"; "3,30"]) (initial ∅)
              eq_refl) as ((evs & Hout & _ & _ & _ & Hbar & _) & _ & _).
  destruct Hbar as (body & Hevs & _); [lia|reflexivity|by vm_compute|].
  exists evs, body. split; [exact Hout|exact Hevs].
Defined.

(** C7, as stated, fails where the counting pass itself raises: line 53 is
    outside the [try]. Here the first file is not UTF-8, so that both the
    count and pandas' first read raise on it. With the count the exception
    leaves [load_data_fast] and the second file is not loaded; had the count
    gone through, the error of the first read would have been logged and the
    second file loaded. *)
Lemma precount_failure_changes_what_is_loaded :
  let dir := [CsvFile "latin1.csv" ["id,name"; "1,x"]; CsvFile "more.csv" ["id"; "7"]] in
  run dir
    (λ name, if bool_decide (name = "latin1.csv")
             then Faults (Some "UnicodeDecodeError")
                         (λ _, Some "UnicodeDecodeError") None None None
                         (λ _, None) None None
             else no_faults)
    100000 ∅ = ∅ ∧
  run dir
    (λ name, if bool_decide (name = "latin1.csv")
             then Faults None (λ _, Some "UnicodeDecodeError") None None None
                         (λ _, None) None None
             else no_faults)
    100000 ∅ = {["more" := ["7"]]}.
Proof. split; vm_compute; reflexivity. Qed.

(** ** Running the script again *)









Lemma count_copy_events_other t' t c fr :
  t' ≠ t → count (Copy t' c) (copy_events t fr) = 0%nat.
Proof.
  intros Hne. induction fr as [|c0 fr IH]; [done|]. simpl.
  rewrite !count_cons, IH. rewrite !bool_decide_eq_false_2; [done|done|congruence].
Qed.

(** C5. For a file name as [os.listdir] gives it (no directory separator in
    it), [os.path.splitext] returns the stem of the name as its root. When
    the name is ASCII: the table name computed at line 47 is the lowercased
    stem of the name; for a name [base.csv] whose base is not made of periods
    only it is the lowercased base; and whatever the content of the file, the
    chunk size, the faults and the state, every insert and every bulk copy
    made for the file is given that name. *)
Theorem table_name_is_lowercased_stem (fl : faults) (C : Z) (f : csv_file)
    (s : state) :
  "\"%char ∉ Str.chars (fname f) → "/"%char ∉ Str.chars (fname f) →
  (Str.ntpath_splitext (fname f)).1 = Str.stem (fname f) ∧
  (Str.is_ascii (fname f) = true →
   table_name_of (fname f) = Str.lower (Str.stem (fname f)) ∧
   (∀ base,
      Str.chars (fname f) = base ++ Str.chars ".csv" →
      forallb Str.is_dot base = false →
      table_name_of (fname f) = Str.lower (Str.of_chars base)) ∧
   ∃ evs,
     out (process_file fl C f s).2 = out s ++ evs ∧
     ∀ t c, ToSql t c ∈ evs ∨ Copy t c ∈ evs →
            t = Str.lower (Str.stem (fname f))).
Proof.
  intros Hsep Halt.
  split; [by apply StrFacts.ntpath_splitext_stem|]. intros _.
  assert (Hname : table_name_of (fname f) = Str.lower (Str.stem (fname f))).
  { unfold table_name_of. by rewrite StrFacts.ntpath_splitext_stem. }
  split; [exact Hname|]. split.
  { intros base Hbase Hdots. rewrite Hname. unfold Str.stem.
    by rewrite Hbase, StrFacts.stem_csv, Hdots. }
  rewrite <- Hname. destruct s as [db rc o].
  destruct (process_file_paths fl C f)
    as [(e & pre & Hpre & Hrun)
       |(h & recs & r & cs & conn & evs & Hl & _ & HC & Hpath & Hrun)];
    rewrite Hrun; cbn [snd out]; eexists; (split; [reflexivity|]);
    intros t c Hin;
    destruct (decide (t = table_name_of (fname f))) as [|Hne]; try done;
    exfalso; revert Hin; rewrite !elem_of_count.
  - destruct Hpre as [[-> _]|[-> _]]; count_norm.
  - inversion Hpath; subst; count_norm;
      rewrite ?count_copy_events_other by done;
      repeat (case_bool_decide; [congruence|]); lia.
Qed.

Lemma table_name_is_lowercased_stem_witness :
  ("\"%char ∉ Str.chars "Sales_2024.csv") ∧
  ("/"%char ∉ Str.chars "Sales_2024.csv") ∧
  Str.is_ascii "Sales_2024.csv" = true ∧
  table_name_of "Sales_2024.csv" = Str.lower (Str.stem "Sales_2024.csv") ∧
  Str.lower (Str.stem "Sales_2024.csv") = "sales_2024".
Proof.
  assert (H1 : "\"%char ∉ Str.chars "Sales_2024.csv").
  { unfold Str.chars. cbn [list_ascii_of_string].
    rewrite !not_elem_of_cons. repeat split; try discriminate. apply not_elem_of_nil. }
  assert (H2 : "/"%char ∉ Str.chars "Sales_2024.csv").
  { unfold Str.chars. cbn [list_ascii_of_string].
    rewrite !not_elem_of_cons. repeat split; try discriminate. apply not_elem_of_nil. }
  split; [exact H1|]. split; [exact H2|]. split; [reflexivity|].
  destruct (table_name_is_lowercased_stem no_faults 2
              (CsvFile "Sales_2024.csv" ["id"; "1"]) (initial ∅) H1 H2)
    as (_ & Hascii).
  destruct (Hascii eq_refl) as (Hname & _ & _).
  split; [exact Hname|]. vm_compute. reflexivity.
Defined.

(** * Further properties of the script *)

(** ** Discovery, order of the files and the final summary *)

Lemma started_app l1 l2 : started (l1 ++ l2) = started l1 ++ started l2.
Proof. apply omap_app. Qed.

Lemma started_cons e l :
  started (e :: l) =
  match e with
  | Print (Starting file) => file :: started l
  | _ => started l
  end.
Proof. by destruct e as [[]| | | | | | | | | | | | | |]. Qed.

Lemma started_copy_events t fr : started (copy_events t fr) = [].
Proof. induction fr as [|c fr IH]; [done|]. simpl. exact IH. Qed.

Ltac started_norm :=
  unfold pre_events, insert_events, handler_events;
  repeat match goal with
         | |- context [rollback_fault ?fl] => destruct (rollback_fault fl)
         end;
  repeat first
    [ rewrite started_app | rewrite started_cons | rewrite started_copy_events ];
  try reflexivity.

(** The body of the loop announces its file once. *)
Lemma process_file_started fl C f s :
  ∃ evs, out (process_file fl C f s).2 = out s ++ evs ∧ started evs = [fname f].
Proof.
  destruct s as [db rc o].
  destruct (process_file_paths fl C f)
    as [(e & pre & Hpre & Hrun)
       |(h & recs & r & cs & conn & evs & _ & _ & _ & Hpath & Hrun)];
    rewrite Hrun; cbn [snd out]; eexists; (split; [reflexivity|]).
  - destruct Hpre as [[-> _]|[-> _]]; started_norm.
  - inversion Hpath; subst; started_norm.
Qed.

(** Neither the body nor the loop prints the summary or logs the completion. *)
Lemma process_file_no_summary fl C f s e :
  e = Print AllProcessed ∨ e = LogInfoCompleted ∨ e = Print NoCsvFiles →
  count e (out (process_file fl C f s).2) = count e (out s).
Proof.
  intros He. destruct s as [db rc o].
  destruct (process_file_paths fl C f)
    as [(e' & pre & Hpre & Hrun)
       |(h & recs & r & cs & conn & evs & _ & _ & _ & Hpath & Hrun)];
    rewrite Hrun; cbn [snd out].
  - destruct Hpre as [[-> _]|[-> _]]; destruct He as [->|[->| ->]]; count_norm.
  - inversion Hpath; subst; destruct He as [->|[->| ->]]; count_norm.
Qed.

Lemma for_files_no_summary plan C e : ∀ files s,
  e = Print AllProcessed ∨ e = LogInfoCompleted ∨ e = Print NoCsvFiles →
  count e (out (for_files plan C files s).2) = count e (out s).
Proof.
  induction files as [|f files IH]; intros s He; [done|].
  rewrite for_files_cons.
  pose proof (process_file_no_summary (plan (fname f)) C f s e He) as H1.
  destruct (process_file (plan (fname f)) C f s) as [[fw|e'] s1]; cbn [snd] in *.
  - by rewrite IH.
  - done.
Qed.

Lemma for_files_started plan C : ∀ files s,
  ∃ evs,
    out (for_files plan C files s).2 = out s ++ evs ∧
    started evs `prefix_of` map fname files ∧
    ((for_files plan C files s).1 = Ret tt → started evs = map fname files).
Proof.
  induction files as [|f files IH]; intros s.
  - exists []. rewrite app_nil_r. by repeat split.
  - rewrite for_files_cons.
    destruct (process_file_started (plan (fname f)) C f s) as (evs1 & Hout1 & Hs1).
    destruct (process_file (plan (fname f)) C f s) as [[fw|e] s1]; cbn [snd] in *.
    + destruct (IH s1) as (evs2 & Hout2 & Hpre & Hall).
      exists (evs1 ++ evs2). rewrite Hout2, Hout1, app_assoc. split; [done|].
      rewrite started_app, Hs1. cbn [map app]. split.
      * by apply prefix_cons.
      * intros Hret. by rewrite Hall.
    + exists evs1. split; [done|]. rewrite Hs1. split; [|done].
      cbn [map]. apply prefix_cons, prefix_nil.
Qed.

(** X1. A directory without any name ending in [.csv]: the script prints its
    three lines and returns at line 42; no file is read, the database and the
    connection variable are as before, and neither the completion log nor the
    final summary is written. *)
Theorem no_csv_files_returns_early (data_path : list csv_file)
    (plan : string → faults) (C : Z) (s : state) :
  (∀ f, f ∈ data_path → Str.endswith (fname f) ".csv" = false) →
  load_data_fast data_path plan C s =
  (Ret tt,
   State (tables s) (raw_conn s)
     (out s ++ [Print Checking; Print (FoundFiles []); Print NoCsvFiles])).
Proof.
  intros Hnone. destruct s as [db rc o]. rewrite load_data_fast_run.
  assert (Hfiles : list_csv_files data_path = []).
  { unfold list_csv_files. induction data_path as [|f l IH]; [done|].
    rewrite filter_cons. rewrite (Hnone f) by left.
    case_decide; [done|]. apply IH. intros g Hg. apply Hnone. by right. }
  by rewrite Hfiles.
Qed.

Lemma no_csv_files_returns_early_witness :
  (∀ f, f ∈ [CsvFile "notes.txt" ["a"]; CsvFile "DATA.CSV" ["id"; "1"]] →
        Str.endswith (fname f) ".csv" = false) ∧
  load_data_fast [CsvFile "notes.txt" ["a"]; CsvFile "DATA.CSV" ["id"; "1"]]
    (λ _, no_faults) 100000 (initial ∅) =
  (Ret tt,
   State ∅ None [Print Checking; Print (FoundFiles []); Print NoCsvFiles]).
Proof.
  assert (H : ∀ f, f ∈ [CsvFile "notes.txt" ["a"]; CsvFile "DATA.CSV" ["id"; "1"]] →
                   Str.endswith (fname f) ".csv" = false).
  { intros f Hf.
    apply elem_of_cons in Hf as [->|Hf]; [by vm_compute|].
    apply elem_of_cons in Hf as [->|Hf]; [by vm_compute|].
    by apply elem_of_nil in Hf. }
  split; [exact H|].
  exact (no_csv_files_returns_early _ (λ _, no_faults) 100000 (initial ∅) H).
Defined.

(** X2. The completion is logged and the final summary printed (lines
    106-107) exactly when at least one file was selected and the loop came to
    its end: once each, as the last two events. In every other run (nothing
    selected, or an exception leaving the loop) neither is written. *)
Theorem final_summary_iff_loop_completed (data_path : list csv_file)
    (plan : string → faults) (C : Z) (s : state) :
  ∃ evs,
    out (load_data_fast data_path plan C s).2 = out s ++ evs ∧
    (((load_data_fast data_path plan C s).1 = Ret tt ∧
      list_csv_files data_path ≠ []) ∧
     count LogInfoCompleted evs = 1%nat ∧
     count (Print AllProcessed) evs = 1%nat ∧
     (∃ before, evs = before ++ [LogInfoCompleted; Print AllProcessed]) ∨
     ((load_data_fast data_path plan C s).1 ≠ Ret tt ∨
      list_csv_files data_path = []) ∧
     count LogInfoCompleted evs = 0%nat ∧
     count (Print AllProcessed) evs = 0%nat).
Proof.
  destruct s as [db rc o]. rewrite load_data_fast_run.
  destruct (list_csv_files data_path) as [|f0 files] eqn:Hfiles.
  { eexists. split; [reflexivity|]. right. split; [by right|]. split; count_norm. }
  set (s0 := State db rc
               (o ++ [Print Checking;
                      Print (FoundFiles (map fname (f0 :: files)))])).
  destruct (for_files_out plan C (f0 :: files) s0) as [evs Hout].
  pose proof (for_files_no_summary plan C LogInfoCompleted (f0 :: files) s0) as Hc1.
  pose proof (for_files_no_summary plan C (Print AllProcessed) (f0 :: files) s0) as Hc2.
  rewrite Hout in Hc1, Hc2. subst s0. cbn [out] in *.
  rewrite !count_app in Hc1, Hc2.
  destruct (for_files plan C (f0 :: files) _) as [[[]|e] s1]; cbn [snd fst out] in *.
  - exists ([Print Checking; Print (FoundFiles (map fname (f0 :: files)))] ++ evs ++
            [LogInfoCompleted; Print AllProcessed]).
    split; [rewrite Hout; by list_norm|]. left. split; [done|].
    split; [|split].
    + rewrite !count_app. specialize (Hc1 ltac:(auto)). count_norm.
    + rewrite !count_app. specialize (Hc2 ltac:(auto)). count_norm.
    + eexists. by rewrite app_assoc.
  - exists ([Print Checking; Print (FoundFiles (map fname (f0 :: files)))] ++ evs).
    split; [rewrite Hout; by list_norm|]. right. split; [by left|].
    split.
    + rewrite !count_app. specialize (Hc1 ltac:(auto)). count_norm.
    + rewrite !count_app. specialize (Hc2 ltac:(auto)). count_norm.
Qed.

(** X3. The files are taken in the order of the listing, each selected name
    announced at most once: the announced names are a prefix of the selected
    names, the whole of them when the run returns, and every announced name
    ends in [.csv]. *)
Theorem files_started_in_listing_order (data_path : list csv_file)
    (plan : string → faults) (C : Z) (s : state) :
  ∃ evs,
    out (load_data_fast data_path plan C s).2 = out s ++ evs ∧
    started evs `prefix_of` map fname (list_csv_files data_path) ∧
    ((load_data_fast data_path plan C s).1 = Ret tt →
     started evs = map fname (list_csv_files data_path)) ∧
    ∀ name, name ∈ started evs → Str.endswith name ".csv" = true.
Proof.
  assert (Hmain : ∃ evs,
    out (load_data_fast data_path plan C s).2 = out s ++ evs ∧
    started evs `prefix_of` map fname (list_csv_files data_path) ∧
    ((load_data_fast data_path plan C s).1 = Ret tt →
     started evs = map fname (list_csv_files data_path))).
  { destruct s as [db rc o]. rewrite load_data_fast_run.
    destruct (list_csv_files data_path) as [|f0 files] eqn:Hfiles.
    { eexists. split; [reflexivity|]. by split. }
    set (s0 := State db rc
                 (o ++ [Print Checking;
                        Print (FoundFiles (map fname (f0 :: files)))])).
    destruct (for_files_started plan C (f0 :: files) s0) as (evs & Hout & Hpre & Hall).
    subst s0. cbn [out] in *.
    destruct (for_files plan C (f0 :: files) _) as [[[]|e] s1]; cbn [snd fst out] in *.
    - exists ([Print Checking; Print (FoundFiles (map fname (f0 :: files)))] ++ evs ++
              [LogInfoCompleted; Print AllProcessed]).
      split; [rewrite Hout; by list_norm|].
      rewrite !started_app. cbn [started omap]. simpl. rewrite app_nil_r.
      split; [done|]. intros _. by apply Hall.
    - exists ([Print Checking; Print (FoundFiles (map fname (f0 :: files)))] ++ evs).
      split; [rewrite Hout; by list_norm|].
      rewrite !started_app. simpl. split; [done|]. done. }
  destruct Hmain as (evs & Hout & Hpre & Hall). exists evs.
  split; [done|]. split; [done|]. split; [done|].
  intros name Hname. destruct Hpre as [k Hk].
  assert (Hin : name ∈ map fname (list_csv_files data_path)).
  { rewrite Hk. apply elem_of_app. by left. }
  apply list_elem_of_In, in_map_iff in Hin as (f & <- & Hf).
  apply list_elem_of_In in Hf. unfold list_csv_files in Hf.
  by apply list_elem_of_filter in Hf as [? _].
Qed.

(** ** What a file does to the database *)











(** X6. With a chunk size below 1 no table is ever touched: the first selected
    file stops the run, with the error of reading it if it cannot be read and
    with the [ValueError] of [pd.read_csv] otherwise. *)
Theorem invalid_chunksize_loads_nothing (data_path : list csv_file)
    (plan : string → faults) (C : Z) (db : gmap string (list row)) :
  C < 1 →
  run data_path plan C db = db ∧
  ∀ f0 rest,
    list_csv_files data_path = f0 :: rest →
    (load_data_fast data_path plan C (initial db)).1 =
    match open_fault (plan (fname f0)) with
    | Some m => Exc (Fault m)
    | None => Exc ValueError
    end.
Proof.
  intros HC. unfold run, initial. rewrite load_data_fast_run.
  destruct (list_csv_files data_path) as [|f0 files] eqn:Hfiles; [done|].
  rewrite for_files_cons, process_file_run.
  destruct (open_fault (plan (fname f0))) as [m|] eqn:Hopen.
  - split; [done|]. intros ? ? [= <- <-]. by rewrite Hopen.
  - destruct (Z.ltb_spec C 1); [|lia]. split; [done|].
    intros ? ? [= <- <-]. by rewrite Hopen.
Qed.

Lemma invalid_chunksize_loads_nothing_witness :
  0 < 1 ∧
  run [CsvFile "sales.csv" ["id"; "1"; "2"]] (λ _, no_faults) 0 {["sales" := ["0"]]} =
  {["sales" := ["0"]]}.
Proof.
  split; [lia|].
  exact (proj1 (invalid_chunksize_loads_nothing
                  [CsvFile "sales.csv" ["id"; "1"; "2"]] (λ _, no_faults) 0
                  {["sales" := ["0"]]} ltac:(lia))).
Defined.

(** ** The events of one file *)

Lemma progress_app l1 l2 : progress (l1 ++ l2) = progress l1 + progress l2.
Proof.
  unfold progress. induction l1 as [|e l1 IH]; cbn [app foldr]; [lia|].
  destruct e; lia.
Qed.

Lemma progress_cons e l :
  progress (e :: l) = match e with PbarUpdate n => n + progress l | _ => progress l end.
Proof. reflexivity. Qed.

Lemma progress_nil : progress [] = 0.
Proof. reflexivity. Qed.

Lemma progress_copy_events t fr :
  progress (copy_events t fr) = Z.of_nat (length (flat_map rows fr)).
Proof.
  induction fr as [|c fr IH]; [done|]. cbn [copy_events flat_map app].
  rewrite !progress_cons. fold (copy_events t fr). rewrite IH, length_app.
  unfold len. lia.
Qed.

Lemma flat_map_rows_take n (fr : list chunk) :
  (length (flat_map rows (take n fr)) ≤ length (flat_map rows fr))%nat.
Proof.
  revert n. induction fr as [|c fr IH]; intros [|n]; cbn [take flat_map length];
    rewrite ?length_app; try lia.
  specialize (IH n). lia.
Qed.

Ltac progress_norm :=
  unfold pre_events, insert_events, handler_events;
  repeat match goal with
         | |- context [rollback_fault ?fl] => destruct (rollback_fault fl)
         end;
  repeat first
    [ rewrite progress_app | rewrite progress_cons | rewrite progress_nil
    | rewrite progress_copy_events ].

Lemma data_lines_full lines :
  length (data_lines lines) = length lines → data_lines lines = lines.
Proof.
  induction lines as [|x l IH]; [done|]. unfold data_lines in *.
  cbn [List.filter]. pose proof (data_lines_length l) as Hle. unfold data_lines in Hle.
  destruct (negb (is_blank x)); cbn [length]; intros Hlen; [|lia].
  f_equal. apply IH. lia.
Qed.

(** X7. The progress bar of a file never passes the number of records pandas
    parses out of it, which is at most the total the bar is opened with, the
    line count minus one. A file logged as ingested has advanced the bar by
    exactly the number of its records: to its total when the file has no
    blank line, and short of it otherwise. (For a file without a field that
    runs over a line break.) *)
Theorem progress_never_exceeds_total (fl : faults) (C : Z) (f : csv_file) (s : state) :
  plain_lines (flines f) = true →
  ∃ evs,
    out (process_file fl C f s).2 = out s ++ evs ∧
    0 ≤ progress evs ≤ Z.of_nat (length (data_rows f)) ∧
    (flines f ≠ [] →
     Z.of_nat (length (data_rows f)) ≤ Z.of_nat (length (flines f)) - 1) ∧
    (LogInfoIngested (fname f) ∈ evs →
     progress evs = Z.of_nat (length (data_rows f)) ∧
     (progress evs = Z.of_nat (length (flines f)) - 1 ↔
      data_lines (flines f) = flines f)).
Proof.
  intros _.
  assert (Hbound : flines f ≠ [] →
            Z.of_nat (length (data_rows f)) ≤ Z.of_nat (length (flines f)) - 1).
  { intros Hne. unfold data_rows. pose proof (data_lines_length (flines f)) as Hle.
    destruct (flines f) as [|x l]; [done|]. cbn [length] in *.
    destruct (data_lines (x :: l)); cbn [tail length] in *; unfold row in *; lia. }
  destruct s as [db rc o].
  destruct (process_file_paths fl C f)
    as [(e & pre & Hpre & Hrun)
       |(h & recs & r & cs & conn & evs & Hl & (_ & _ & Hd) & HC & Hpath & Hrun)];
    rewrite Hrun; cbn [snd out]; eexists; (split; [reflexivity|]).
  - assert (Hp : progress pre = 0) by (destruct Hpre as [[-> _]|[-> _]]; reflexivity).
    rewrite Hp. split; [lia|]. split; [done|]. rewrite elem_of_count.
    destruct Hpre as [[-> _]|[-> _]]; count_norm.
  - assert (Hrecs : data_rows f = tail (data_lines (h :: recs)))
      by (unfold data_rows; by rewrite Hl).
    assert (Hsum : ∀ c rest, frames_of (Z.to_nat C) h recs = c :: rest →
              len c + Z.of_nat (length (flat_map rows rest)) =
              Z.of_nat (length (data_rows f))).
    { intros c rest Hfr.
      pose proof (frames_of_rows (Z.to_nat C) h recs ltac:(lia)) as Hall.
      rewrite Hfr in Hall. cbn [flat_map] in Hall.
      rewrite Hrecs, <- Hall, length_app. unfold len. lia. }
    assert (Hfull : Z.of_nat (length (data_rows f)) = Z.of_nat (length (flines f)) - 1 ↔
              data_lines (flines f) = flines f).
    { rewrite Hrecs, Hl. split.
      - intros Hlen. apply data_lines_full.
        destruct (data_lines (h :: recs)); [done|]. cbn [tail length] in *.
        unfold row in *. lia.
      - intros ->. cbn [tail length]. unfold row in *. lia. }
    split; [|split; [done|]]; rewrite ?elem_of_count;
      inversion Hpath as [| | | |c rest n msg|]; subst;
      try match goal with
          | H : frames_of _ _ _ = _ :: _ |- _ => specialize (Hsum _ _ H)
          end;
      try (pose proof (flat_map_rows_take n rest));
      try (progress_norm; unfold len, row in *; lia);
      try (count_norm; fail).
    intros _. rewrite <- Hfull.
    assert (Hp : progress
              (pre_events f ++
               PbarOpen (fname f) (Z.of_nat (length (flines f)) - 1) ::
               (insert_events (fname f) (table_name_of (fname f)) c ++
                RawConnect :: copy_events (table_name_of (fname f)) rest ++
                [Commit; LogInfoIngested (fname f); Close;
                 Print (ConnClosed (fname f))]) ++ [PbarClose]) =
            Z.of_nat (length (data_rows f))).
    { progress_norm. unfold len, row in *. lia. }
    rewrite Hp. done.
Qed.

Lemma progress_never_exceeds_total_witness :
  plain_lines ["id"; "1"; " "; "2"] = true ∧
  ∃ evs,
    out (process_file no_faults 1 (CsvFile "sales.csv" ["id"; "1"; " "; "2"])
           (initial ∅)).2 = evs ∧
    LogInfoIngested "sales.csv" ∈ evs ∧
    PbarOpen "sales.csv" 3 ∈ evs ∧
    progress evs = 2.
Proof.
  split; [reflexivity|].
  destruct (progress_never_exceeds_total no_faults 1
              (CsvFile "sales.csv" ["id"; "1"; " "; "2"]) (initial ∅) eq_refl)
    as (evs & Hout & _ & _ & Hing).
  change (out (initial ∅) ++ evs) with evs in Hout.
  exists evs. split; [exact Hout|].
  assert (Hin : LogInfoIngested "sales.csv" ∈ evs).
  { rewrite <- Hout. apply elem_of_count. vm_compute. lia. }
  split; [exact Hin|]. split.
  - rewrite <- Hout. apply elem_of_count. vm_compute. lia.
  - exact (proj1 (Hing Hin)).
Defined.

Lemma first_occurrence_unique (x : event) : ∀ A pre post B,
  count x A = 0%nat → count x B = 0%nat →
  pre ++ x :: post = A ++ x :: B → post = B.
Proof.
  induction A as [|a A IH]; intros pre post B HA HB Heq.
  - destruct pre as [|y pre]; cbn [app] in Heq; [congruence|].
    injection Heq as -> <-. revert HB. rewrite count_app, count_cons.
    rewrite bool_decide_eq_true_2 by done. lia.
  - revert HA. rewrite count_cons. case_bool_decide as Ha; [lia|]. intros HA.
    destruct pre as [|y pre]; cbn [app] in Heq; [congruence|].
    injection Heq as -> Heq. by eapply IH.
Qed.

(** X8. The transaction of a file is resolved at most once and only on a
    connection that was opened: a commit or a rollback, never both, exactly
    one of them when the rollback call returns; and once the connection is
    closed nothing is sent, committed or rolled back. *)
Theorem transaction_resolved_before_close (fl : faults) (C : Z) (f : csv_file)
    (s : state) :
  ∃ evs,
    out (process_file fl C f s).2 = out s ++ evs ∧
    (count Commit evs + count Rollback evs ≤ count RawConnect evs ≤ 1)%nat ∧
    (rollback_fault fl = None →
     (count Commit evs + count Rollback evs)%nat = count RawConnect evs) ∧
    ∀ pre post,
      evs = pre ++ Close :: post →
      count Commit post = 0%nat ∧ count Rollback post = 0%nat ∧ transfers post = [].
Proof.
  destruct s as [db rc o].
  destruct (process_file_paths fl C f)
    as [(e & pre & Hpre & Hrun)
       |(h & recs & r & cs & conn & evs & Hl & _ & HC & Hpath & Hrun)];
    rewrite Hrun; cbn [snd out]; eexists; (split; [reflexivity|]).
  - split; [|split].
    + destruct Hpre as [[-> _]|[-> _]]; count_norm.
    + intros _. destruct Hpre as [[-> _]|[-> _]]; count_norm.
    + intros p q Heq. exfalso.
      assert (Hc : count Close pre = 0%nat)
        by (destruct Hpre as [[-> _]|[-> _]]; count_norm).
      revert Hc. rewrite Heq, count_app, count_cons, bool_decide_eq_true_2 by done. lia.
  - assert (Hcases :
      count Close evs = 0%nat ∨
      ∃ A, evs = A ++ Close :: [Print (ConnClosed (fname f))] ∧ count Close A = 0%nat).
    { inversion Hpath as [| | | |c rest n msg|c rest]; subst.
      1-4: left; count_norm.
      - right.
        exists (insert_events (fname f) (table_name_of (fname f)) c ++
                RawConnect :: copy_events (table_name_of (fname f)) (take n rest) ++
                handler_events fl (fname f) (Fault msg)).
        split; [list_norm|count_norm].
      - right.
        exists (insert_events (fname f) (table_name_of (fname f)) c ++
                RawConnect :: copy_events (table_name_of (fname f)) rest ++
                [Commit; LogInfoIngested (fname f)]).
        split; [list_norm|count_norm]. }
    split; [|split].
    + inversion Hpath; subst; count_norm.
    + intros Hrb. inversion Hpath; subst; unfold handler_events; rewrite ?Hrb; count_norm.
    + intros p q Heq. destruct Hcases as [Hc|(A & -> & HA)].
      * exfalso.
        assert (Hc' : count Close (pre_events f ++
                  PbarOpen (fname f) (Z.of_nat (length (flines f)) - 1) ::
                  evs ++ [PbarClose]) = 0%nat) by (revert Hc; count_norm).
        revert Hc'. rewrite Heq, count_app, count_cons, bool_decide_eq_true_2 by done. lia.
      * assert (Hq : q = [Print (ConnClosed (fname f)); PbarClose]).
        { eapply (first_occurrence_unique Close
                    (pre_events f ++
                     PbarOpen (fname f) (Z.of_nat (length (flines f)) - 1) :: A)).
          - revert HA. count_norm.
          - count_norm.
          - rewrite <- Heq. list_norm. }
        by rewrite Hq.
Qed.



(** ** The chunks that are sent *)

Lemma frames_of_shape c header recs :
  (1 ≤ c)%nat →
  Forall (λ fr, (length (rows fr) ≤ c)%nat) (frames_of c header recs) ∧
  Forall (λ fr, (1 ≤ length (rows fr))%nat) (tail (frames_of c header recs)).
Proof.
  intros Hc. unfold frames_of, chunks.
  destruct (data_lines (header :: recs)) as [|h rs]; [by split|].
  pose proof (chunked_sizes c Hc (length rs) rs) as Hsz. unfold row in *.
  destruct (chunked (length rs) c rs) as [|x l] eqn:E.
  - split; [|constructor]. repeat constructor. cbn. lia.
  - split.
    + apply Forall_fmap. eapply Forall_impl; [exact Hsz|]. intros y Hy.
      cbn in *. unfold row in *. lia.
    + cbn [map tail]. apply Forall_fmap. apply Forall_cons in Hsz as [_ Hsz].
      eapply Forall_impl; [exact Hsz|]. intros y Hy. cbn in *. unfold row in *. lia.
Qed.

Lemma elem_of_transfers e evs : e ∈ evs → is_transfer e = true → e ∈ transfers evs.
Proof.
  intros Hin Ht. apply list_elem_of_In. unfold transfers.
  apply filter_In. split; [by apply list_elem_of_In|done].
Qed.

(** Along every path the chunks sent are frames of the reader: the first by
    [to_sql], later ones by bulk copy. *)
Lemma upload_path_transfers fl file t frames r cs conn evs :
  upload_path fl file t frames r cs conn evs →
  ∀ e, e ∈ transfers evs →
    ∃ c rest, frames = c :: rest ∧
      (e = ToSql t c ∨ ∃ c', c' ∈ rest ∧ e = Copy t c').
Proof.
  intros Hpath e.
  inversion Hpath as [| | | |c rest n msg Hfr|c rest Hfr]; subst; transfers_norm.
  - by intros ?%elem_of_nil.
  - by intros ?%elem_of_nil.
  - by intros ?%elem_of_nil.
  - intros ->%list_elem_of_singleton. eauto 6.
  - destruct (rollback_fault fl); transfers_norm; rewrite app_nil_r;
      (intros [->|Hin]%elem_of_cons; [by eauto 6|]);
      apply list_elem_of_fmap in Hin as (c' & -> & Hc');
      exists c, rest; (split; [done|]); right; exists c';
      (split; [|done]); by eapply subseteq_take.
  - rewrite app_nil_r. intros [->|Hin]%elem_of_cons; [by eauto 6|].
    apply list_elem_of_fmap in Hin as (c' & -> & Hc'). eauto 8.
Qed.

(** X10. Every chunk a file sends holds at most [chunksize] rows, and a chunk
    sent by bulk copy is never empty: only the first chunk, sent by [to_sql],
    can be. *)
Theorem sent_chunks_fit_chunksize (fl : faults) (C : Z) (f : csv_file) (s : state) :
  ∃ evs,
    out (process_file fl C f s).2 = out s ++ evs ∧
    (∀ t c, ToSql t c ∈ evs ∨ Copy t c ∈ evs → 0 ≤ len c ≤ C) ∧
    (∀ t c, Copy t c ∈ evs → 1 ≤ len c).
Proof.
  destruct s as [db rc o].
  destruct (process_file_paths fl C f)
    as [(e & pre & Hpre & Hrun)
       |(h & recs & r & cs & conn & evs & Hl & _ & HC & Hpath & Hrun)];
    rewrite Hrun; cbn [snd out]; eexists; (split; [reflexivity|]).
  - split.
    + intros t c Hin. exfalso. revert Hin. rewrite !elem_of_count.
      destruct Hpre as [[-> _]|[-> _]]; count_norm.
    + intros t c. rewrite elem_of_count. destruct Hpre as [[-> _]|[-> _]]; count_norm.
  - destruct (frames_of_shape (Z.to_nat C) h recs ltac:(lia)) as [Hall Htail].
    assert (Hsent : ∀ e,
      e ∈ pre_events f ++ PbarOpen (fname f) (Z.of_nat (length (flines f)) - 1) ::
          evs ++ [PbarClose] →
      is_transfer e = true →
      ∃ c rest, frames_of (Z.to_nat C) h recs = c :: rest ∧
        (e = ToSql (table_name_of (fname f)) c ∨
         ∃ c', c' ∈ rest ∧ e = Copy (table_name_of (fname f)) c')).
    { intros e Hin Ht. apply (upload_path_transfers _ _ _ _ _ _ _ _ Hpath).
      apply elem_of_transfers with (evs := pre_events f ++ _) in Hin; [|done].
      revert Hin. transfers_norm. by rewrite app_nil_r. }
    split.
    + intros t c Hin.
      assert (Hc : c ∈ frames_of (Z.to_nat C) h recs).
      { destruct Hin as [Hin|Hin]; apply Hsent in Hin as (c0 & rest & Hfr & Hin);
          try done; rewrite Hfr;
          destruct Hin as [[= _ ->]|(c' & Hc' & [= _ ->])]; try done;
          [left|by right]. }
      rewrite Forall_forall in Hall. specialize (Hall _ Hc). unfold len. lia.
    + intros t c Hin. apply Hsent in Hin as (c0 & rest & Hfr & Hin); [|done].
      destruct Hin as [[=]|(c' & Hc' & [= _ ->])].
      rewrite Hfr in Htail. cbn [tail] in Htail. rewrite Forall_forall in Htail.
      specialize (Htail _ Hc'). unfold len. lia.
Qed.

(** ** The run as a whole *)

Lemma process_file_connections fl C f s :
  ∃ evs,
    out (process_file fl C f s).2 = out s ++ evs ∧
    count RawConnect evs = count Close evs ∧ (count Close evs ≤ 1)%nat ∧
    (raw_conn (process_file fl C f s).2 = raw_conn s ∨
     raw_conn (process_file fl C f s).2 = None ∨
     raw_conn (process_file fl C f s).2 = Some (Connection [] true)).
Proof.
  destruct s as [db rc o].
  destruct (process_file_paths fl C f)
    as [(e & pre & Hpre & Hrun)
       |(h & recs & r & cs & conn & evs & Hl & _ & HC & Hpath & Hrun)];
    rewrite Hrun; cbn [snd out raw_conn]; eexists; (split; [reflexivity|]).
  - split; [|split]; [| |by left]; destruct Hpre as [[-> _]|[-> _]]; count_norm.
  - split; [|split].
    + inversion Hpath; subst; count_norm.
    + inversion Hpath; subst; count_norm.
    + inversion Hpath; subst; auto.
Qed.

Lemma for_files_connections plan C : ∀ files s,
  ∃ evs,
    out (for_files plan C files s).2 = out s ++ evs ∧
    count RawConnect evs = count Close evs ∧
    (count Close evs ≤ length files)%nat ∧
    (raw_conn (for_files plan C files s).2 = raw_conn s ∨
     raw_conn (for_files plan C files s).2 = None ∨
     raw_conn (for_files plan C files s).2 = Some (Connection [] true)).
Proof.
  induction files as [|f files IH]; intros s.
  - exists []. rewrite app_nil_r. cbn. auto.
  - rewrite for_files_cons.
    destruct (process_file_connections (plan (fname f)) C f s)
      as (evs1 & Hout1 & Heq1 & Hle1 & Hrc1).
    destruct (process_file (plan (fname f)) C f s) as [[fw|e] s1]; cbn [snd] in *.
    + destruct (IH s1) as (evs2 & Hout2 & Heq2 & Hle2 & Hrc2).
      exists (evs1 ++ evs2). rewrite Hout2, Hout1, <- app_assoc, !count_app.
      cbn [length]. split; [done|]. split; [lia|]. split; [lia|].
      destruct Hrc2 as [->|[->| ->]]; auto.
    + exists evs1. cbn [length]. split; [done|]. split; [done|]. split; [lia|done].
Qed.

(** X11. No connection outlives a run: whatever is raised and wherever the run
    stops, every raw connection that was opened has been closed, at most one
    was opened for each selected file, and the connection the run ends with,
    if any, is closed with nothing pending. *)
Theorem no_connection_outlives_run (data_path : list csv_file)
    (plan : string → faults) (C : Z) (s : state) :
  ∃ evs,
    out (load_data_fast data_path plan C s).2 = out s ++ evs ∧
    count RawConnect evs = count Close evs ∧
    (count RawConnect evs ≤ length (list_csv_files data_path))%nat ∧
    (raw_conn (load_data_fast data_path plan C s).2 = raw_conn s ∨
     raw_conn (load_data_fast data_path plan C s).2 = None ∨
     raw_conn (load_data_fast data_path plan C s).2 = Some (Connection [] true)).
Proof.
  destruct s as [db rc o]. rewrite load_data_fast_run.
  destruct (list_csv_files data_path) as [|f0 files] eqn:Hfiles.
  { cbn [snd out raw_conn]. eexists. split; [reflexivity|]. cbn [length].
    split; [count_norm|]. split; [count_norm|by left]. }
  destruct (for_files_connections plan C (f0 :: files)
              (State db rc (o ++ [Print Checking;
                 Print (FoundFiles (map fname (f0 :: files)))])))
    as (evs & Hout & Heq & Hle & Hrc).
  destruct (for_files plan C (f0 :: files) _) as [[[]|e] s1]; cbn [snd out raw_conn] in *.
  - exists ([Print Checking; Print (FoundFiles (map fname (f0 :: files)))] ++ evs ++
            [LogInfoCompleted; Print AllProcessed]).
    rewrite Hout. split; [list_norm|]. cbn [length] in *.
    split; [revert Heq; count_norm|]. split; [revert Heq Hle; count_norm|done].
  - exists ([Print Checking; Print (FoundFiles (map fname (f0 :: files)))] ++ evs).
    rewrite Hout. split; [list_norm|]. cbn [length] in *.
    split; [revert Heq; count_norm|]. split; [revert Heq Hle; count_norm|done].
Qed.

Lemma process_file_raises fl C f s e :
  (process_file fl C f s).1 = Exc e →
  (e = ValueError ∧ C < 1) ∨
  (e = EmptyDataError ∧ data_lines (flines f) = []) ∨
  ∃ m, e = Fault m ∧
       (open_fault fl = Some m ∨ read_csv_fault fl = Some m ∨
        rollback_fault fl = Some m).
Proof.
  destruct s as [db rc o]. rewrite process_file_run.
  destruct (open_fault fl) as [m|] eqn:Hopen; [intros [= <-]; eauto 7|].
  destruct (Z.ltb_spec C 1); [intros [= <-]; auto|].
  destruct (read_csv_fault fl) as [m|] eqn:Hrcsv; [intros [= <-]; eauto 7|].
  destruct (flines f) as [|header recs]; [intros [= <-]; auto|].
  destruct (data_lines (header :: recs)) as [|h rs] eqn:Hd; [intros [= <-]; auto|].
  destruct (upload_paths fl (fname f) (table_name_of (fname f))
              (frames_of (Z.to_nat C) header recs) 0)
    as (r & copies & conn & evs & Hpath & Hrun).
  rewrite Hrun. cbn [fst]. intros ->.
  inversion Hpath as [| | | |c rest n msg Hfr Hn Hres|]; subst.
  unfold handler_result in Hres. destruct (rollback_fault fl) as [m|]; [|done].
  injection Hres as <-. eauto 7.
Qed.

Lemma for_files_raises plan C e : ∀ files s,
  (for_files plan C files s).1 = Exc e →
  ∃ f s', f ∈ files ∧ (process_file (plan (fname f)) C f s').1 = Exc e.
Proof.
  induction files as [|f files IH]; intros s; [done|].
  rewrite for_files_cons.
  destruct (process_file (plan (fname f)) C f s) as [[fw|e'] s1] eqn:E; cbn [fst].
  - intros (g & s' & Hg & Hr)%IH. exists g, s'. split; [by right|done].
  - intros [= ->]. exists f, s. split; [left|]. by rewrite E.
Qed.



(** X13. The chunk size the script is run with is one [pd.read_csv] accepts:
    the run of lines 110-112 never ends in its [ValueError]. It returns, or
    ends in the [EmptyDataError] of a file without any line, or in an error of
    the environment. *)
Theorem main_chunksize_is_accepted (data_path : list csv_file)
    (plan : string → faults) (s : state) :
  (main data_path plan s).1 = Ret tt ∨
  (main data_path plan s).1 = Exc EmptyDataError ∨
  ∃ m, (main data_path plan s).1 = Exc (Fault m).
Proof.
  unfold main. destruct s as [db rc o]. rewrite load_data_fast_run.
  destruct (list_csv_files data_path) as [|f0 files]; [by left|].
  destruct (for_files plan 100000 (f0 :: files) _) as [[[]|e] s1] eqn:E; [by left|].
  cbn [fst].
  destruct (for_files_raises plan 100000 e (f0 :: files) _ ltac:(by rewrite E))
    as (g & s' & _ & Hr).
  apply process_file_raises in Hr as [[_ ?]|[[-> _]|(m & -> & _)]]; [lia|auto|eauto].
Qed.

(** ** File names and the connection string *)

Module StrMore.
Import Str.

Lemma of_chars_app l1 l2 : of_chars (l1 ++ l2) = of_chars l1 +:+ of_chars l2.
Proof. induction l1 as [|x l1 IH]; cbn; [done|]. unfold of_chars in IH. by rewrite IH. Qed.

Lemma string_app_nil_r (s : string) : s +:+ "" = s.
Proof.
  induction s as [|a s IH]; [done|].
  change (String a (s +:+ "") = String a s). by rewrite IH.
Qed.

Lemma string_app_assoc (s1 s2 s3 : string) : (s1 +:+ s2) +:+ s3 = s1 +:+ s2 +:+ s3.
Proof.
  induction s1 as [|a s1 IH]; [done|].
  change (String a ((s1 +:+ s2) +:+ s3) = String a (s1 +:+ s2 +:+ s3)). by rewrite IH.
Qed.

(** A character occurs in [p] for the last time somewhere, or not at all. *)
Lemma last_occurrence (c : ascii) (p : list ascii) :
  (c ∉ p) ∨ ∃ l1 l2, p = l1 ++ c :: l2 ∧ (c ∉ l2).
Proof.
  induction p as [|x p IH]; [left; apply not_elem_of_nil|].
  destruct IH as [Hno|(l1 & l2 & -> & Hl2)].
  - destruct (decide (x = c)) as [->|Hne].
    + right. by exists [], p.
    + left. by apply not_elem_of_cons.
  - right. by exists (x :: l1), l2.
Qed.

Lemma rfind_cases c p :
  (rfind c p = -1 ∧ (c ∉ p)) ∨
  ∃ l1 l2, p = l1 ++ c :: l2 ∧ (c ∉ l2) ∧ rfind c p = Z.of_nat (length l1).
Proof.
  destruct (last_occurrence c p) as [Hno|(l1 & l2 & -> & Hl2)].
  - left. split; [by apply StrFacts.rfind_absent|done].
  - right. exists l1, l2. split; [done|]. split; [done|].
    by apply StrFacts.rfind_last.
Qed.

Lemma skip_leading_dots_cases n extsep p dotIndex filenameIndex :
  skip_leading_dots n extsep p dotIndex filenameIndex = (p, []) ∨
  skip_leading_dots n extsep p dotIndex filenameIndex = (take dotIndex p, drop dotIndex p).
Proof.
  revert filenameIndex. induction n as [|n IH]; intros i; cbn [skip_leading_dots]; [by left|].
  case_bool_decide; [apply IH|by right].
Qed.

(** [_splitext] leaves the path whole or cuts it at its last [extsep]. *)
Lemma splitext_cases sep altsep extsep p :
  _splitext sep altsep extsep p = (p, []) ∨
  ∃ l1 l2, p = l1 ++ extsep :: l2 ∧ (extsep ∉ l2) ∧
           _splitext sep altsep extsep p = (l1, extsep :: l2).
Proof.
  unfold _splitext.
  set (sepIndex := match altsep with
                   | Some a => Z.max (rfind sep p) (rfind a p)
                   | None => rfind sep p
                   end).
  assert (Hsep : -1 ≤ sepIndex).
  { subst sepIndex. destruct (rfind_cases sep p) as [[-> _]|(? & ? & _ & _ & ->)];
      destruct altsep; lia. }
  destruct (Z.ltb_spec sepIndex (rfind extsep p)) as [Hlt|]; [|by left].
  destruct (rfind_cases extsep p) as [[Hd _]|(l1 & l2 & Hp & Hl2 & Hd)]; [lia|].
  destruct (skip_leading_dots_cases
              (Z.to_nat (rfind extsep p - (sepIndex + 1))) extsep p
              (Z.to_nat (rfind extsep p)) (Z.to_nat (sepIndex + 1))) as [->| ->];
    [by left|].
  right. exists l1, l2. split; [done|]. split; [done|].
  rewrite Hd, Nat2Z.id. rewrite Hp at 1 2.
  rewrite take_app_length. by rewrite drop_app_length.
Qed.

Lemma lower_char_idemp x : lower_char (lower_char x) = lower_char x.
Proof. by destruct x as [[] [] [] [] [] [] [] []]; vm_compute. Qed.

Lemma lower_char_keeps c x :
  c = "\"%char ∨ c = "/"%char ∨ c = "."%char →
  Ascii.eqb (lower_char x) c = Ascii.eqb x c.
Proof.
  intros [->|[->| ->]]; by destruct x as [[] [] [] [] [] [] [] []]; vm_compute.
Qed.

Lemma rfind_from_lower c p i found :
  c = "\"%char ∨ c = "/"%char ∨ c = "."%char →
  rfind_from c (map lower_char p) i found = rfind_from c p i found.
Proof.
  intros Hc. revert i found. induction p as [|x p IH]; intros i found; [done|].
  cbn [map rfind_from]. by rewrite IH, lower_char_keeps.
Qed.

Lemma map_lower_is_dot (l : list ascii) :
  map lower_char l = ["."%char] ↔ l = ["."%char].
Proof.
  destruct l as [|x [|y l]]; cbn [map]; try (split; discriminate).
  pose proof (lower_char_keeps "." x ltac:(auto)) as Hx.
  split; intros [= H]; f_equal.
  - apply Ascii.eqb_eq. rewrite <- Hx. by apply Ascii.eqb_eq.
  - apply Ascii.eqb_eq. rewrite Hx. by apply Ascii.eqb_eq.
Qed.

Lemma skip_leading_dots_lower n p dotIndex filenameIndex :
  skip_leading_dots n "." (map lower_char p) dotIndex filenameIndex =
  (map lower_char (skip_leading_dots n "." p dotIndex filenameIndex).1,
   map lower_char (skip_leading_dots n "." p dotIndex filenameIndex).2).
Proof.
  revert filenameIndex. induction n as [|n IH]; intros i; cbn [skip_leading_dots]; [done|].
  rewrite skipn_map, firstn_map.
  rewrite (bool_decide_ext _ _ (map_lower_is_dot (take 1 (drop i p)))).
  case_bool_decide; [apply IH|]. cbn [fst snd]. by rewrite skipn_map, firstn_map.
Qed.

Lemma splitext_lower sep altsep p :
  sep = "\"%char ∨ sep = "/"%char → altsep = Some "/"%char ∨ altsep = None →
  _splitext sep altsep "." (map lower_char p) =
  (map lower_char (_splitext sep altsep "." p).1,
   map lower_char (_splitext sep altsep "." p).2).
Proof.
  intros Hsep Halt. unfold _splitext, rfind.
  rewrite (rfind_from_lower sep), (rfind_from_lower ".") by (destruct Hsep; auto).
  destruct Halt as [-> | ->]; rewrite ?(rfind_from_lower "/") by auto;
    (destruct (_ <? _); [apply skip_leading_dots_lower|done]).
Qed.

Lemma lower_idemp s : lower (lower s) = lower s.
Proof.
  unfold lower. rewrite StrFacts.chars_of_chars. f_equal.
  rewrite map_map. apply map_ext. intros x. apply lower_char_idemp.
Qed.

End StrMore.

(** The lowered root does not depend on the case of the name, under either
    flavour of [os.path]. *)
Lemma lower_root_of_lower sep altsep file :
  sep = "\"%char ∨ sep = "/"%char → altsep = Some "/"%char ∨ altsep = None →
  Str.lower (Str.of_chars (Str._splitext sep altsep "." (Str.chars (Str.lower file))).1) =
  Str.lower (Str.of_chars (Str._splitext sep altsep "." (Str.chars file)).1).
Proof.
  intros Hsep Halt. unfold Str.lower at 2.
  rewrite StrFacts.chars_of_chars, StrMore.splitext_lower by done. cbn [fst].
  unfold Str.lower. rewrite !StrFacts.chars_of_chars. f_equal.
  rewrite map_map. apply map_ext. intros x. apply StrMore.lower_char_idemp.
Qed.

Lemma table_name_of_lower file : table_name_of (Str.lower file) = table_name_of file.
Proof.
  unfold table_name_of, Str.ntpath_splitext.
  pose proof (lower_root_of_lower "\" (Some "/"%char) file ltac:(auto) ltac:(auto)) as H.
  destruct (Str._splitext _ _ _ (Str.chars (Str.lower file))) as [root1 ext1].
  by destruct (Str._splitext _ _ _ (Str.chars file)) as [root ext].
Qed.

(** X14. [os.path.splitext] only cuts: root and extension joined give the
    name back, and the extension is empty or starts at the last period of the
    name, so holds no other period. *)
Theorem splitext_cuts_at_last_period (p : string) :
  (Str.ntpath_splitext p).1 +:+ (Str.ntpath_splitext p).2 = p ∧
  ((Str.ntpath_splitext p).2 = "" ∨
   ∃ rest, Str.chars (Str.ntpath_splitext p).2 = "."%char :: rest ∧
           "."%char ∉ rest).
Proof.
  unfold Str.ntpath_splitext.
  destruct (StrMore.splitext_cases "\" (Some "/"%char) "." (Str.chars p))
    as [->|(l1 & l2 & Hp & Hl2 & ->)]; cbn [fst snd].
  - split; [|by left]. rewrite StrFacts.of_chars_chars. apply StrMore.string_app_nil_r.
  - split.
    + by rewrite <- StrMore.of_chars_app, <- Hp, StrFacts.of_chars_chars.
    + right. exists l2. by rewrite StrFacts.chars_of_chars.
Qed.

(** X15. Two ASCII file names that differ only in the case of their letters
    load into the same table, on Windows and on POSIX alike. *)
Theorem names_differing_in_case_share_table (a b : string) :
  Str.is_ascii a = true → Str.is_ascii b = true →
  Str.lower a = Str.lower b →
  table_name_of a = table_name_of b ∧
  Str.lower (Str.posixpath_splitext a).1 = Str.lower (Str.posixpath_splitext b).1.
Proof.
  intros _ _ Hab. split.
  - by rewrite <- (table_name_of_lower a), Hab, table_name_of_lower.
  - unfold Str.posixpath_splitext.
    pose proof (lower_root_of_lower "/" None a ltac:(auto) ltac:(auto)) as Ha.
    pose proof (lower_root_of_lower "/" None b ltac:(auto) ltac:(auto)) as Hb.
    rewrite Hab in Ha. rewrite Ha in Hb.
    destruct (Str._splitext _ _ _ (Str.chars a)) as [ra ea].
    by destruct (Str._splitext _ _ _ (Str.chars b)) as [rb eb].
Qed.

Lemma names_differing_in_case_share_table_witness :
  Str.is_ascii "Sales.csv" = true ∧ Str.is_ascii "SALES.csv" = true ∧
  Str.lower "Sales.csv" = Str.lower "SALES.csv" ∧
  table_name_of "Sales.csv" = table_name_of "SALES.csv" ∧
  Str.endswith "Sales.csv" ".csv" = true ∧ Str.endswith "SALES.csv" ".csv" = true.
Proof.
  split; [reflexivity|]. split; [reflexivity|]. split; [reflexivity|].
  split;
    [exact (proj1 (names_differing_in_case_share_table "Sales.csv" "SALES.csv"
                     eq_refl eq_refl eq_refl))|].
  split; reflexivity.
Defined.

(** X16. The connection string is built without quoting its parts: a
    password that holds [@] gives the string of another configuration, whose
    password ends before the [@] and whose host starts after it. *)
Theorem conn_str_does_not_quote (u p x h po d : string) :
  conn_str (DbConfig u (p +:+ "@" +:+ x) h po d) =
  conn_str (DbConfig u p (x +:+ "@" +:+ h) po d).
Proof.
  unfold conn_str. cbn [user password host port dbname].
  by rewrite !StrMore.string_app_assoc.
Qed.

(** ** The first insert *)

Lemma apply_copies_creates t new more db :
  is_Some (apply_copies ((t, new) :: more) db !! t).
Proof.
  change (is_Some (apply_copies more (append_rows t new db) !! t)).
  apply apply_copies_keeps. unfold append_rows. rewrite lookup_insert_eq. eauto.
Qed.

(** X17. Whatever is raised, the chunks of a file are sent in file order
    without gap or repetition: nothing at all, or the first frame by [to_sql]
    followed by a run of the next frames by bulk copy. *)
Theorem chunks_sent_in_file_order (fl : faults) (C : Z) (f : csv_file) (s : state) :
  ∃ evs,
    out (process_file fl C f s).2 = out s ++ evs ∧
    (transfers evs = [] ∨
     ∃ header c rest n,
       flines f = header :: records f ∧
       frames_of (Z.to_nat C) header (records f) = c :: rest ∧
       transfers evs =
         ToSql (table_name_of (fname f)) c ::
         map (Copy (table_name_of (fname f))) (take n rest)).
Proof.
  destruct s as [db rc o].
  destruct (process_file_paths fl C f)
    as [(e & pre & Hpre & Hrun)
       |(h & recs & r & cs & conn & evs & Hl & _ & HC & Hpath & Hrun)];
    rewrite Hrun; cbn [snd out]; eexists; (split; [reflexivity|]).
  - left. by destruct Hpre as [[-> _]|[-> _]].
  - assert (Hrecs : records f = recs) by (unfold records; by rewrite Hl).
    rewrite Hrecs.
    inversion Hpath as [| | |c rest msg Hfr|c rest n msg Hfr|c rest Hfr]; subst.
    + by left.
    + by left.
    + by left.
    + right. exists h, c, rest, 0%nat. split; [done|]. split; [done|].
      by transfers_norm.
    + right. exists h, c, rest, n. split; [done|]. split; [done|].
      unfold handler_events; destruct (rollback_fault fl); transfers_norm; by rewrite ?app_nil_r.
    + right. exists h, c, rest, (length rest). split; [done|]. split; [done|].
      transfers_norm. by rewrite ?app_nil_r, firstn_all.
Qed.

(** X18. The database changes through the first insert only: a file whose
    first chunk was handed to [to_sql] has its table afterwards, be it empty,
    and a file without that insert leaves every table as it was. *)
Theorem first_insert_creates_table (fl : faults) (C : Z) (f : csv_file) (s : state) :
  ∃ evs,
    out (process_file fl C f s).2 = out s ++ evs ∧
    ((∃ c, ToSql (table_name_of (fname f)) c ∈ evs) →
     is_Some (tables (process_file fl C f s).2 !! table_name_of (fname f))) ∧
    ((∀ c, ToSql (table_name_of (fname f)) c ∉ evs) →
     tables (process_file fl C f s).2 = tables s).
Proof.
  destruct s as [db rc o].
  destruct (process_file_paths fl C f)
    as [(e & pre & Hpre & Hrun)
       |(h & recs & r & cs & conn & evs & Hl & _ & HC & Hpath & Hrun)];
    rewrite Hrun; cbn [snd out tables]; eexists; (split; [reflexivity|]).
  - split; [|done]. intros [c Hin]. exfalso. revert Hin. rewrite elem_of_count.
    destruct Hpre as [[-> _]|[-> _]]; count_norm.
  - split.
    + intros [c0 Hin]. revert Hin. rewrite elem_of_count.
      inversion Hpath as [| | |c rest msg Hfr|c rest n msg Hfr|c rest Hfr]; subst;
        try (count_norm; fail); intros _.
      * apply apply_copies_creates.
      * apply apply_copies_creates.
      * apply apply_copies_creates.
    + intros Hno.
      inversion Hpath as [| | |c rest msg Hfr|c rest n msg Hfr|c rest Hfr]; subst;
        try done; exfalso; specialize (Hno c); revert Hno;
        rewrite not_elem_of_count; count_norm.
Qed.
